(** * Location search pipeline: geocoding service, search hook, saved list

    A shallow embedding of
    - the geocoding service ([GeocodingService]: [geocodeLocation],
      [validateLocationInput], [getSuggestions]),
    - the search hook ([useLocationSearch]: [updateDebouncedQuery],
      [handleSetSearchQuery], the query function, [manualSearch],
      [clearResults]),
    - the saved-location toggle of the [LocationSearch] component,
    followed by the properties established about them.

    Texts are Rocq strings read one character per UTF-16 code unit, so the
    embedding covers the texts whose code units are below 256; [length] is
    then the [.length] of the source. *)

From Stdlib Require Import String Ascii List ZArith Lia Bool Arith.
From Stdlib Require Import DecimalString NArith.
Import ListNotations.

Local Open Scope string_scope.
Local Open Scope Z_scope.

Set Implicit Arguments.

(* ===================================================================== *)
(** ** Text primitives of the runtime *)
(* ===================================================================== *)

Module Text.

Definition code (c : ascii) : N := N_of_ascii c.

(** White space and line terminators of the language, as far as they lie
    below 256: TAB, LF, VT, FF, CR, SP and NBSP. [trim] and the class
    [\s] both use this set. *)
Definition is_white_space (c : ascii) : bool :=
  let n := code c in
  ((9 <=? n) && (n <=? 13) || (n =? 32) || (n =? 160))%N.

(** [\w] is [[A-Za-z0-9_]]. *)
Definition is_word_char (c : ascii) : bool :=
  let n := code c in
  ((65 <=? n) && (n <=? 90) || (97 <=? n) && (n <=? 122)
   || (48 <=? n) && (n <=? 57) || (n =? 95))%N.

(** Canonicalisation used by the [i] flag (no [u] flag): the upper-case
    mapping of a code unit when that mapping is a single code unit and
    does not send a code unit from 128 upward to one below 128. Below 256
    this moves a-z and the accented lower-case letters (except the
    division sign) by 32. The micro sign and the y with diaeresis map
    above 255, to code units nothing else below 256 maps to; they are left
    alone here, which keeps equality of canonical forms as it is. *)
Definition canonicalize (c : ascii) : ascii :=
  let n := code c in
  if ((97 <=? n) && (n <=? 122)
      || (224 <=? n) && (n <=? 254) && negb (n =? 247))%N
  then ascii_of_N (n - 32) else c.

Fixpoint trimStart (s : string) : string :=
  match s with
  | EmptyString => EmptyString
  | String c s' => if is_white_space c then trimStart s' else s
  end.

Fixpoint trimEnd (s : string) : string :=
  match s with
  | EmptyString => EmptyString
  | String c s' =>
      match trimEnd s' with
      | EmptyString =>
          if is_white_space c then EmptyString else String c EmptyString
      | t => String c t
      end
  end.

Definition trim (s : string) : string := trimEnd (trimStart s).

(** [.length] as a number. *)
Definition len (s : string) : Z := Z.of_nat (String.length s).

(** Truthiness of a string value: only the empty string is falsy. *)
Definition truthy (s : string) : bool :=
  match s with EmptyString => false | _ => true end.

(** [s.repeat(n)]. *)
Fixpoint repeat (s : string) (n : nat) : string :=
  match n with
  | O => EmptyString
  | Datatypes.S n' => (s ++ repeat s n')%string
  end.

(** The double-quote character, for messages that quote the query. *)
Definition dquote : string := String (ascii_of_nat 34) EmptyString.

(** *** encodeURIComponent

    Unreserved characters pass through; every other code unit is written
    as the percent-encoded bytes of its UTF-8 form (one byte below 128,
    two bytes from 128 to 255). *)
Definition is_unreserved (c : ascii) : bool :=
  let n := code c in
  ((65 <=? n) && (n <=? 90) || (97 <=? n) && (n <=? 122)
   || (48 <=? n) && (n <=? 57)
   || (n =? 45) || (n =? 95) || (n =? 46) || (n =? 33) || (n =? 126)
   || (n =? 42) || (n =? 39) || (n =? 40) || (n =? 41))%N.

Definition hex_digit (n : N) : ascii :=
  if (n <? 10)%N then ascii_of_N (48 + n) else ascii_of_N (55 + n).

Definition percent (byte : N) : string :=
  String "%" (String (hex_digit (byte / 16))
                (String (hex_digit (byte mod 16)) EmptyString)).

Definition encode_unit (c : ascii) : string :=
  let n := code c in
  if is_unreserved c then String c EmptyString
  else if (n <? 128)%N then percent n
  else (percent (192 + n / 64) ++ percent (128 + n mod 64))%string.

Fixpoint encodeURIComponent (s : string) : string :=
  match s with
  | EmptyString => EmptyString
  | String c s' => (encode_unit c ++ encodeURIComponent s')%string
  end.

End Text.

(* ===================================================================== *)
(** ** Regular expressions, as far as the service uses them *)
(* ===================================================================== *)

Module Regex.

Inductive regex : Type :=
| Void : regex
| Eps : regex
| Class : (ascii -> bool) -> regex
| Seq : regex -> regex -> regex
| Alt : regex -> regex -> regex
| Star : regex -> regex.

(** The words of a pattern. *)
Inductive lang : regex -> list ascii -> Prop :=
| L_eps : lang Eps []
| L_class p c : p c = true -> lang (Class p) [c]
| L_seq r1 r2 w1 w2 : lang r1 w1 -> lang r2 w2 -> lang (Seq r1 r2) (w1 ++ w2)
| L_alt_l r1 r2 w : lang r1 w -> lang (Alt r1 r2) w
| L_alt_r r1 r2 w : lang r2 w -> lang (Alt r1 r2) w
| L_star_nil r : lang (Star r) []
| L_star_cons r w1 w2 :
    lang r w1 -> lang (Star r) w2 -> lang (Star r) (w1 ++ w2).

Fixpoint nullable (r : regex) : bool :=
  match r with
  | Void => false
  | Eps => true
  | Class _ => false
  | Seq r1 r2 => nullable r1 && nullable r2
  | Alt r1 r2 => nullable r1 || nullable r2
  | Star _ => true
  end.

Fixpoint deriv (c : ascii) (r : regex) : regex :=
  match r with
  | Void => Void
  | Eps => Void
  | Class p => if p c then Eps else Void
  | Seq r1 r2 =>
      if nullable r1
      then Alt (Seq (deriv c r1) r2) (deriv c r2)
      else Seq (deriv c r1) r2
  | Alt r1 r2 => Alt (deriv c r1) (deriv c r2)
  | Star r1 => Seq (deriv c r1) (Star r1)
  end.

(** Whole-word acceptance. *)
Fixpoint accepts (r : regex) (w : list ascii) : bool :=
  match w with
  | [] => nullable r
  | c :: w' => accepts (deriv c r) w'
  end.

Definition any : regex := Class (fun _ => true).

(** [RegExp.prototype.test] without anchors: some substring is a word of
    the pattern. *)
Definition test (r : regex) (s : string) : bool :=
  accepts (Seq (Star any) (Seq r (Star any))) (list_ascii_of_string s).

(** A literal character under the [i] flag. *)
Definition chr_i (c : ascii) : regex :=
  Class (fun x => Ascii.eqb (Text.canonicalize x) (Text.canonicalize c)).

(** A literal text under the [i] flag. *)
Fixpoint lit_i (s : string) : regex :=
  match s with
  | EmptyString => Eps
  | String c s' => Seq (chr_i c) (lit_i s')
  end.

Definition plus (r : regex) : regex := Seq r (Star r).

Definition word_i : regex := Class Text.is_word_char.
Definition space : regex := Class Text.is_white_space.

End Regex.

(* ===================================================================== *)
(** ** Numbers of the runtime *)
(* ===================================================================== *)

(** The code only prints numbers into template literals and reads them back
    with [parseFloat]; both are taken as an interface. *)
Class JsNumbers : Type := {
  number : Type;
  number_to_string : number -> string;
  parseFloat : string -> number
}.

(* ===================================================================== *)
(** ** Effects: thrown values, the network, caller state *)
(* ===================================================================== *)

Inductive ErrorCode : Type :=
| INVALID_INPUT | NO_RESULTS | API_ERROR | NETWORK_ERROR.

(** The shape the service file declares for its failures. The declaration
    is an [interface]: it gives objects a type and nothing else. The hook
    throws an object literal of this shape. *)
Record GeocodingError : Type := {
  message : string;
  code : ErrorCode
}.

(** What a [throw] carries: an object of the shape [GeocodingError]; the
    [ReferenceError] the runtime raises when it evaluates an identifier
    that is bound to no value; or any other value of the runtime (a
    [TypeError] of [fetch] or of a call on something that is no function,
    a [SyntaxError] of [json()]). *)
Inductive Thrown : Type :=
| GeoError (e : GeocodingError)
| ReferenceError (identifier : string)
| OtherError.

Inductive Res (A : Type) : Type :=
| Ok (a : A)
| Throw (e : Thrown).
Arguments Ok {A} a.
Arguments Throw {A} e.

Module Net.

Section Upstream.
Context `{JsNumbers}.

(** A coordinate as the upstream sends it: a number, or already text. *)
Inductive RawCoord : Type :=
| RawNumber (n : number)
| RawString (s : string).

(** One object of the upstream array. [region] may be missing. *)
Record UpstreamRecord : Type := {
  r_name : string;
  r_region : option string;
  r_country : string;
  r_lat : RawCoord;
  r_lon : RawCoord
}.

(** What [response.json()] gives. *)
Inductive Body : Type :=
| BodyUnparsable
| BodyNotArray
| BodyArray (rs : list UpstreamRecord).

Record Response : Type := {
  status : Z;
  body : Body
}.

(** What [fetch] gives for a URL: a rejection or a response. *)
Inductive FetchOutcome : Type :=
| FetchRejected
| FetchResponse (r : Response).

Definition ok (r : Response) : bool :=
  (200 <=? status r) && (status r <=? 299).

(** The network: the outcome of a GET for each URL. *)
Definition Network : Type := string -> FetchOutcome.

End Upstream.

End Net.

(** A computation that may contact the network, may throw and may change
    the state [S] of its caller. It returns its result, the state it leaves
    and the URLs it requested, in order. *)
Definition Eff `{JsNumbers} (S A : Type) : Type :=
  Net.Network -> S -> Res A * S * list string.

Module EffOps.
Section Ops.
Context `{JsNumbers} {S : Type}.

Definition ret {A} (a : A) : Eff S A := fun _ s => (Ok a, s, []).

Definition throw {A} (e : Thrown) : Eff S A := fun _ s => (Throw e, s, []).

Definition bind {A B} (m : Eff S A) (k : A -> Eff S B) : Eff S B :=
  fun net s =>
    match m net s with
    | (Ok a, s1, l1) =>
        let '(r, s2, l2) := k a net s1 in (r, s2, (l1 ++ l2)%list)
    | (Throw e, s1, l1) => (Throw e, s1, l1)
    end.

Definition try_catch {A} (m : Eff S A) (h : Thrown -> Eff S A) : Eff S A :=
  fun net s =>
    match m net s with
    | (Ok a, s1, l1) => (Ok a, s1, l1)
    | (Throw e, s1, l1) =>
        let '(r, s2, l2) := h e net s1 in (r, s2, (l1 ++ l2)%list)
    end.

Definition modify (f : S -> S) : Eff S unit := fun _ s => (Ok tt, f s, []).

(** [await fetch(url)]. *)
Definition fetch (url : string) : Eff S Net.Response :=
  fun net s =>
    match net url with
    | Net.FetchRejected => (Throw OtherError, s, [url])
    | Net.FetchResponse r => (Ok r, s, [url])
    end.

(** [await response.json()]. *)
Definition json (r : Net.Response) : Eff S Net.Body :=
  match Net.body r with
  | Net.BodyUnparsable => throw OtherError
  | b => ret b
  end.

End Ops.
End EffOps.

Declare Scope eff_scope.
Delimit Scope eff_scope with eff.
Notation "x <- m ;; k" := (EffOps.bind m (fun x => k))
  (at level 61, m at next level, right associativity) : eff_scope.
Notation "m ;;; k" := (EffOps.bind m (fun _ => k))
  (at level 61, right associativity) : eff_scope.

Definition result_of {S A} (x : Res A * S * list string) : Res A := fst (fst x).
Definition state_of {S A} (x : Res A * S * list string) : S := snd (fst x).
Definition requests_of {S A} (x : Res A * S * list string) : list string := snd x.

(* ===================================================================== *)
(** ** The geocoding service *)
(* ===================================================================== *)

Module GeocodingService.
Import EffOps.

Section Service.
Context `{JsNumbers}.

Record GeocodingResult : Type := {
  id : string;
  name : string;
  region : string;
  country : string;
  lat : number;
  lon : number;
  formatted_address : option string
}.

Definition API_KEY : string := "YOUR_API_KEY".
Definition BASE_URL : string := "https://api.weatherapi.com/v1".

Definition search_url (cleanedInput : string) : string :=
  (BASE_URL ++ "/search.json?key=" ++ API_KEY ++ "&q="
    ++ Text.encodeURIComponent cleanedInput)%string.

(** A raw coordinate inside a template literal. *)
Definition coord_text (c : Net.RawCoord) : string :=
  match c with
  | Net.RawNumber n => number_to_string n
  | Net.RawString s => s
  end.

(** [result.region] read as a condition or as the left side of [||]. *)
Definition region_truthy (r : option string) : bool :=
  match r with
  | Some s => Text.truthy s
  | None => false
  end.

Definition region_text (r : option string) : string :=
  match r with
  | Some s => s
  | None => ""
  end.

(** The arrow function given to [results.map]. *)
Definition to_result (result : Net.UpstreamRecord) : GeocodingResult :=
  {| id := (coord_text (Net.r_lat result) ++ "-"
            ++ coord_text (Net.r_lon result))%string;
     name := Net.r_name result;
     region := if region_truthy (Net.r_region result)
               then region_text (Net.r_region result) else "";
     country := Net.r_country result;
     lat := parseFloat (coord_text (Net.r_lat result));
     lon := parseFloat (coord_text (Net.r_lon result));
     formatted_address :=
       Some (Net.r_name result ++ ", "
             ++ (if region_truthy (Net.r_region result)
                 then region_text (Net.r_region result) ++ ", " else "")
             ++ Net.r_country result)%string |}.

(** The name [GeocodingError] in an expression. The file declares it as an
    [interface] only, a type, which is gone from the module that runs; no
    class, function or import binds the name to a value. Evaluating the
    identifier therefore raises a [ReferenceError], and that is the first
    thing both [new GeocodingError({message, code})] and
    [error instanceof GeocodingError] do: no object is built and no test
    is made. *)
Definition new_GeocodingError {S} (message : string) (code : ErrorCode)
  : Eff S GeocodingError :=
  throw (ReferenceError "GeocodingError").

(** The test would give the error at the type it narrows to. *)
Definition instanceof_GeocodingError {S} (error : Thrown)
  : Eff S (option GeocodingError) :=
  throw (ReferenceError "GeocodingError").

(** [throw new GeocodingError({message, code})]. *)
Definition throw_new {S A} (message : string) (code : ErrorCode) : Eff S A :=
  (error <- new_GeocodingError message code ;; throw (GeoError error))%eff.

Definition geocodeLocation {S} (locationString : string)
  : Eff S (list GeocodingResult) :=
  if negb (Text.truthy locationString)
     || (Text.len (Text.trim locationString) <? 2)
  then throw_new "Location must be at least 2 characters long" INVALID_INPUT
  else
    let cleanedInput := Text.trim locationString in
    try_catch
      (response <- fetch (search_url cleanedInput) ;;
       if negb (Net.ok response) then
         if Net.status response =? 401 then
           throw_new "Invalid API key. Please check your configuration."
             API_ERROR
         else if Net.status response =? 429 then
           throw_new "Too many requests. Please try again later." API_ERROR
         else
           throw_new "Failed to fetch location data" API_ERROR
       else
         results <- json response ;;
         match results with
         | Net.BodyArray (r :: rs) => ret (map to_result (r :: rs))
         | _ =>
             throw_new ("No locations found for " ++ Text.dquote
                        ++ cleanedInput ++ Text.dquote
                        ++ ". Try a different search term.")
               NO_RESULTS
         end)%eff
      (fun error =>
         (narrowed <- instanceof_GeocodingError error ;;
          match narrowed with
          | Some _ => throw error
          | None =>
              throw_new
                "Network error. Please check your connection and try again."
                NETWORK_ERROR
          end)%eff).

Record Validation : Type := {
  isValid : bool;
  error : option string
}.

Definition invalid (m : string) : Validation :=
  {| isValid := false; error := Some m |}.

(** [/on\w+\s*=/i]. *)
Definition event_handler_pattern : Regex.regex :=
  Regex.Seq (Regex.lit_i "on")
    (Regex.Seq (Regex.plus Regex.word_i)
       (Regex.Seq (Regex.Star Regex.space) (Regex.lit_i "="))).

(** [/<script/i], [/javascript:/i], [/on\w+\s*=/i], [/data:/i]. *)
Definition dangerousPatterns : list Regex.regex :=
  [ Regex.lit_i "<script";
    Regex.lit_i "javascript:";
    event_handler_pattern;
    Regex.lit_i "data:" ].

(** The argument is [None] when the caller passes no text at all
    ([null], [undefined]). *)
Definition validateLocationInput (input : option string) : Validation :=
  match input with
  | None => invalid "Location is required"
  | Some input =>
      if negb (Text.truthy input) then invalid "Location is required"
      else
        let trimmed := Text.trim input in
        if Text.len trimmed <? 2 then
          invalid "Location must be at least 2 characters long"
        else if Text.len trimmed >? 100 then
          invalid "Location must be less than 100 characters"
        else if existsb (fun pattern => Regex.test pattern trimmed)
                  dangerousPatterns then
          invalid "Invalid characters in location"
        else {| isValid := true; error := None |}
  end.

Definition getSuggestions {S} (partialInput : string)
  : Eff S (list GeocodingResult) :=
  if Text.len partialInput <? 3 then ret []
  else try_catch (geocodeLocation partialInput) (fun _ => ret []).

End Service.
End GeocodingService.

(* ===================================================================== *)
(** ** The event loop: a clock and the pending timers *)
(* ===================================================================== *)

Module Timers.

(** A pending [setTimeout(() => setDebouncedQuery(query), delay)]: the
    callbacks of the hook differ only in the captured [query]. *)
Record Timer : Type := {
  timer_id : positive;
  timer_due : Z;
  timer_query : string
}.

Record Loop : Type := {
  clock : Z;
  pending : list Timer;
  next_id : positive
}.

Definition start : Loop := {| clock := 0; pending := []; next_id := 1%positive |}.

(** The delay a timer gets: the argument read as a 32-bit signed integer,
    and 0 when that is negative. *)
Definition to_int32 (z : Z) : Z := (z + 2 ^ 31) mod 2 ^ 32 - 2 ^ 31.
Definition timer_delay (ms : Z) : Z := Z.max 0 (to_int32 ms).

(** Timers are kept in the order in which they come due; a new timer goes
    behind those due at the same time. *)
Fixpoint enqueue (t : Timer) (q : list Timer) : list Timer :=
  match q with
  | [] => [t]
  | u :: q' =>
      if timer_due t <? timer_due u then t :: q else u :: enqueue t q'
  end.

Definition setTimeout (query : string) (ms : Z) (l : Loop) : positive * Loop :=
  let t := {| timer_id := next_id l;
              timer_due := clock l + timer_delay ms;
              timer_query := query |} in
  (next_id l,
   {| clock := clock l;
      pending := enqueue t (pending l);
      next_id := Pos.succ (next_id l) |}).

Definition clearTimeout (i : positive) (l : Loop) : Loop :=
  {| clock := clock l;
     pending := filter (fun t => negb (Pos.eqb (timer_id t) i)) (pending l);
     next_id := next_id l |}.

Definition is_due (now : Z) (t : Timer) : bool := timer_due t <=? now.

End Timers.

(* ===================================================================== *)
(** ** The search hook *)
(* ===================================================================== *)

Module UseLocationSearch.
Import EffOps GeocodingService Timers.

Record Options : Type := {
  debounceMs : Z;
  minSearchLength : Z;
  maxResults : Z
}.

Definition defaults : Options :=
  {| debounceMs := 300; minSearchLength := 3; maxResults := 10 |}.

(** The state of one hook instance together with the event loop it
    schedules on. [fired] lists, oldest first, the texts the callbacks of
    debounce timers handed to [setDebouncedQuery]. A commit is not yet a
    lookup: the key of the suggestion query is [debouncedQuery], and a
    commit of the text that already is the debounced query leaves the key
    as it is. *)
Record Hook : Type := {
  searchQuery : string;
  searchError : option Thrown;
  debouncedQuery : string;
  debounceRef : option positive;
  loop : Loop;
  fired : list string
}.

Definition init : Hook :=
  {| searchQuery := ""; searchError := None; debouncedQuery := "";
     debounceRef := None; loop := Timers.start; fired := [] |}.

Definition setSearchQuery (q : string) (h : Hook) : Hook :=
  {| searchQuery := q; searchError := searchError h;
     debouncedQuery := debouncedQuery h; debounceRef := debounceRef h;
     loop := loop h; fired := fired h |}.

Definition setSearchError (e : option Thrown) (h : Hook) : Hook :=
  {| searchQuery := searchQuery h; searchError := e;
     debouncedQuery := debouncedQuery h; debounceRef := debounceRef h;
     loop := loop h; fired := fired h |}.

Definition setDebouncedQuery (q : string) (h : Hook) : Hook :=
  {| searchQuery := searchQuery h; searchError := searchError h;
     debouncedQuery := q; debounceRef := debounceRef h;
     loop := loop h; fired := fired h |}.

Definition with_loop (l : Loop) (h : Hook) : Hook :=
  {| searchQuery := searchQuery h; searchError := searchError h;
     debouncedQuery := debouncedQuery h; debounceRef := debounceRef h;
     loop := l; fired := fired h |}.

Definition with_ref (r : option positive) (h : Hook) : Hook :=
  {| searchQuery := searchQuery h; searchError := searchError h;
     debouncedQuery := debouncedQuery h; debounceRef := r;
     loop := loop h; fired := fired h |}.

Definition log_fired (q : string) (h : Hook) : Hook :=
  {| searchQuery := searchQuery h; searchError := searchError h;
     debouncedQuery := debouncedQuery h; debounceRef := debounceRef h;
     loop := loop h; fired := (fired h ++ [q])%list |}.

(** [array.slice(0, end)]. *)
Definition slice0 {A} (finish : Z) (l : list A) : list A :=
  let n := Z.of_nat (List.length l) in
  let final := if finish <? 0 then Z.max (n + finish) 0 else Z.min finish n in
  firstn (Z.to_nat final) l.

Section Hook.
Variable opts : Options.

Definition updateDebouncedQuery (query : string) (h : Hook) : Hook :=
  let h1 :=
    match debounceRef h with
    | Some i => with_loop (clearTimeout i (loop h)) h
    | None => h
    end in
  let '(i, l) := setTimeout query (debounceMs opts) (loop h1) in
  with_ref (Some i) (with_loop l h1).

Definition handleSetSearchQuery (query : string) (h : Hook) : Hook :=
  let h1 := setSearchError None (setSearchQuery query h) in
  if minSearchLength opts <=? Text.len query
  then updateDebouncedQuery query h1
  else setDebouncedQuery "" h1.

Definition clearResults (h : Hook) : Hook :=
  let h1 := setSearchError None
              (setDebouncedQuery "" (setSearchQuery "" h)) in
  match debounceRef h1 with
  | Some i => with_loop (clearTimeout i (loop h1)) h1
  | None => h1
  end.

(** The callback of a debounce timer. *)
Definition fire (t : Timer) (h : Hook) : Hook :=
  log_fired (timer_query t) (setDebouncedQuery (timer_query t) h).

(** Time passes: the timers that come due run, earliest first. *)
Definition elapse (dt : Z) (h : Hook) : Hook :=
  let now := clock (loop h) + Z.max 0 dt in
  let due := filter (is_due now) (pending (loop h)) in
  let rest := filter (fun t => negb (is_due now t)) (pending (loop h)) in
  let h1 := with_loop {| clock := now; pending := rest;
                         next_id := next_id (loop h) |} h in
  fold_left (fun acc t => fire t acc) due h1.


Inductive Event : Type :=
| Typed (query : string)
| Elapsed (dt : Z)
| Cleared.

Definition step (h : Hook) (e : Event) : Hook :=
  match e with
  | Typed q => handleSetSearchQuery q h
  | Elapsed dt => elapse dt h
  | Cleared => clearResults h
  end.

Definition run (es : list Event) (h : Hook) : Hook := fold_left step es h.

Context `{JsNumbers}.

(** [queryFn] of the suggestion query, for the committed text. *)
Definition queryFn {S} (debouncedQuery : string)
  : Eff S (list GeocodingResult) :=
  if negb (Text.truthy debouncedQuery)
     || (Text.len debouncedQuery <? minSearchLength opts)
  then ret []
  else
    try_catch
      (results <- getSuggestions debouncedQuery ;;
       ret (slice0 (maxResults opts) results))%eff
      (fun _ => ret []).

Definition or_else (e : option string) (d : string) : string :=
  match e with
  | Some s => if Text.truthy s then s else d
  | None => d
  end.

Definition manualSearch (query : string)
  : Eff Hook (list GeocodingResult) :=
  (modify (setSearchError None) ;;;
   try_catch
     (let validation := validateLocationInput (Some query) in
      if negb (isValid validation) then
        let error :=
          GeoError {| message := or_else (error validation) "Invalid input";
                      code := INVALID_INPUT |} in
        modify (setSearchError (Some error)) ;;;
        throw error
      else
        results <- geocodeLocation query ;;
        ret (slice0 (maxResults opts) results))
     (fun geocodingError =>
        modify (setSearchError (Some geocodingError)) ;;;
        throw geocodingError))%eff.

End Hook.
End UseLocationSearch.

(* ===================================================================== *)
(** ** The saved-location list of the LocationSearch component *)
(* ===================================================================== *)

Module LocationSearch.

Section Component.
Context `{JsNumbers}.

Record Location : Type := {
  id : string;
  name : string;
  region : string;
  country : string;
  lat : number;
  lon : number
}.

(** The part of the component the toggle touches: the list in state, the
    list written under the key [weather-saved-locations] (kept as the
    list that was serialised) and the toasts shown so far. *)
Record Saved : Type := {
  savedLocations : list Location;
  stored : option (list Location);
  toasts : list string
}.

Definition same_id (a b : Location) : bool := String.eqb (id a) (id b).

Definition isLocationSaved (s : Saved) (location : Location) : bool :=
  existsb (fun saved => same_id saved location) (savedLocations s).

Definition toggleSavedLocation (location : Location) (s : Saved) : Saved :=
  let isCurrentlySaved :=
    existsb (fun saved => same_id saved location) (savedLocations s) in
  let '(newSavedLocations, toast) :=
    if isCurrentlySaved
    then (filter (fun saved => negb (same_id saved location))
            (savedLocations s),
          "Removed " ++ name location ++ " from favorites")
    else ((savedLocations s ++ [location])%list,
          "Added " ++ name location ++ " to favorites") in
  {| savedLocations := newSavedLocations;
     stored := Some newSavedLocations;
     toasts := (toasts s ++ [toast])%list |}.

End Component.
End LocationSearch.

(* ===================================================================== *)
(** ** Manual location entry of the service file *)
(* ===================================================================== *)

(** The three kinds of toast the code shows, with their message. *)
Inductive ToastKind : Type := ToastError | ToastInfo | ToastSuccess.

Definition Toast : Type := (ToastKind * string)%type.

Module ManualEntry.
Import EffOps GeocodingService.

(** An optional text inside a template literal. *)
Definition template_text (o : option string) : string :=
  match o with
  | Some s => s
  | None => "undefined"
  end.

Section Entry.
Context `{JsNumbers} {S : Type}.

(** [toast.error], [toast.info] and [toast.success] of the toast library and
    the two callbacks of the caller, as changes of the caller's state; the
    callbacks do not throw. [onError] is optional. *)
Variable toast : ToastKind -> string -> S -> S.
Variable onSuccess : GeocodingResult -> S -> S.
Variable onError : option (GeocodingError -> S -> S).

(** [onError?.(error)]. *)
Definition call_onError (e : GeocodingError) : Eff S unit :=
  match onError with
  | Some f => modify (f e)
  | None => ret tt
  end.

Definition handleManualLocationEntry (locationString : string) : Eff S unit :=
  try_catch
    (let validation := validateLocationInput (Some locationString) in
     if negb (isValid validation) then
       error <- new_GeocodingError
                  (UseLocationSearch.or_else (error validation) "Invalid input")
                  INVALID_INPUT ;;
       modify (toast ToastError (message error)) ;;;
       call_onError error
     else
       modify (toast ToastInfo "Searching for location...") ;;;
       results <- geocodeLocation locationString ;;
       match results with
       | [] =>
           error <- new_GeocodingError
                      ("No locations found for " ++ Text.dquote
                       ++ locationString ++ Text.dquote)
                      NO_RESULTS ;;
           modify (toast ToastError (message error)) ;;;
           call_onError error
       | location :: _ =>
           modify (toast ToastSuccess
                     ("Found: " ++ template_text (formatted_address location))) ;;;
           modify (onSuccess location)
       end)%eff
    (fun error =>
       (narrowed <- instanceof_GeocodingError error ;;
        geocodingError <-
          match narrowed with
          | Some e => ret e
          | None => new_GeocodingError "Failed to find location" API_ERROR
          end ;;
        modify (toast ToastError (message geocodingError)) ;;;
        call_onError geocodingError)%eff).

End Entry.
End ManualEntry.

(* ===================================================================== *)
(** ** The LocationSearch component on the hook *)
(* ===================================================================== *)

Module SearchPanel.
Import EffOps GeocodingService UseLocationSearch.

(** The characters of [[a-zA-Z0-9\s,.-]]. *)
Definition location_char (c : ascii) : bool :=
  let n := Text.code c in
  ((97 <=? n) && (n <=? 122) || (65 <=? n) && (n <=? 90)
   || (48 <=? n) && (n <=? 57))%N
  || Text.is_white_space c
  || (n =? 44)%N || (n =? 46)%N || (n =? 45)%N.

(** [/^[a-zA-Z0-9\s,.-]+$/]: the whole text is a word of the class, once or
    more. *)
Definition location_pattern : Regex.regex :=
  Regex.plus (Regex.Class location_char).

(** [manualLocationSchema]: the messages of the checks that fail on the
    [location] field, in the order of the checks. *)
Definition manualLocationSchema (location : string) : list string :=
  ((if Text.len location <? 2
    then ["Location must be at least 2 characters"] else [])
   ++ (if Text.len location >? 100
       then ["Location must be less than 100 characters"] else [])
   ++ (if Regex.accepts location_pattern (list_ascii_of_string location)
       then [] else ["Location contains invalid characters"]))%list.

Definition schema_accepts (location : string) : bool :=
  match manualLocationSchema location with
  | [] => true
  | _ => false
  end.

(** The options the component gives the hook. *)
Definition options : Options :=
  {| debounceMs := 300; minSearchLength := 3; maxResults := 8 |}.

Section Panel.
Context `{JsNumbers}.

(** The state the handlers touch: the hook, the [location] field of the
    form, the flag of the manual search, the toasts shown and the places
    handed to [onLocationSelect], oldest first. *)
Record Panel : Type := {
  hook : Hook;
  formLocation : string;
  isManualSearching : bool;
  shown : list Toast;
  selected : list LocationSearch.Location
}.

Definition start : Panel :=
  {| hook := init; formLocation := ""; isManualSearching := false;
     shown := []; selected := [] |}.

Definition with_hook (f : Hook -> Hook) (p : Panel) : Panel :=
  {| hook := f (hook p); formLocation := formLocation p;
     isManualSearching := isManualSearching p; shown := shown p;
     selected := selected p |}.

Definition form_reset (p : Panel) : Panel :=
  {| hook := hook p; formLocation := "";
     isManualSearching := isManualSearching p; shown := shown p;
     selected := selected p |}.

Definition setIsManualSearching (b : bool) (p : Panel) : Panel :=
  {| hook := hook p; formLocation := formLocation p;
     isManualSearching := b; shown := shown p; selected := selected p |}.

Definition toast (k : ToastKind) (m : string) (p : Panel) : Panel :=
  {| hook := hook p; formLocation := formLocation p;
     isManualSearching := isManualSearching p;
     shown := (shown p ++ [(k, m)])%list; selected := selected p |}.

Definition onLocationSelect (location : LocationSearch.Location) (p : Panel)
  : Panel :=
  {| hook := hook p; formLocation := formLocation p;
     isManualSearching := isManualSearching p; shown := shown p;
     selected := (selected p ++ [location])%list |}.

Definition convertToLocation (result : GeocodingResult)
  : LocationSearch.Location :=
  {| LocationSearch.id := id result;
     LocationSearch.name := name result;
     LocationSearch.region := region result;
     LocationSearch.country := country result;
     LocationSearch.lat := lat result;
     LocationSearch.lon := lon result |}.

Definition handleLocationSelect (location : LocationSearch.Location)
  (p : Panel) : Panel :=
  let p1 := onLocationSelect location p in
  let p2 := with_hook (handleSetSearchQuery options "") p1 in
  let p3 := with_hook clearResults p2 in
  let p4 := form_reset p3 in
  toast ToastSuccess
    ("Weather updated for " ++ LocationSearch.name location) p4.

(** The [onError] the component passes only logs to the console. The
    awaited entry stands in no [try]: when it rejects, the submit rejects
    with it and the last statement is not reached. *)
Definition onManualSubmit (location : string) : Eff Panel unit :=
  (modify (setIsManualSearching true) ;;;
   ManualEntry.handleManualLocationEntry toast
     (fun result => handleLocationSelect (convertToLocation result))
     (Some (fun _ p => p))
     location ;;;
   modify (setIsManualSearching false))%eff.

End Panel.
End SearchPanel.

(* ===================================================================== *)
(** ** The LocationSearch component with its own search *)
(* ===================================================================== *)

Module SearchBox.
Import EffOps.

Section Box.
Context `{JsNumbers}.

(** A search result as this version builds it: the fields of the upstream
    record as they come, unparsed. *)
Record Hit : Type := {
  id : string;
  name : string;
  region : option string;
  country : string;
  lat : Net.RawCoord;
  lon : Net.RawCoord
}.

Record Box : Type := {
  searchQuery : string;
  searchResults : list Hit;
  isSearching : bool;
  shown : list Toast;
  selected : list Hit
}.

Definition start : Box :=
  {| searchQuery := ""; searchResults := []; isSearching := false;
     shown := []; selected := [] |}.

Definition setSearchQuery (q : string) (b : Box) : Box :=
  {| searchQuery := q; searchResults := searchResults b;
     isSearching := isSearching b; shown := shown b; selected := selected b |}.

Definition setSearchResults (l : list Hit) (b : Box) : Box :=
  {| searchQuery := searchQuery b; searchResults := l;
     isSearching := isSearching b; shown := shown b; selected := selected b |}.

Definition setIsSearching (v : bool) (b : Box) : Box :=
  {| searchQuery := searchQuery b; searchResults := searchResults b;
     isSearching := v; shown := shown b; selected := selected b |}.

(** The arrow function given to [results.map]. *)
Definition to_hit (result : Net.UpstreamRecord) : Hit :=
  {| id := (GeocodingService.coord_text (Net.r_lat result) ++ "-"
            ++ GeocodingService.coord_text (Net.r_lon result))%string;
     name := Net.r_name result;
     region := Net.r_region result;
     country := Net.r_country result;
     lat := Net.r_lat result;
     lon := Net.r_lon result |}.

(** [try { m } finally { f }] for an [f] that does not throw. *)
Definition finally {S A} (m : Eff S A) (f : S -> S) : Eff S A :=
  fun net s => let '(r, s1, l) := m net s in (r, f s1, l).

Definition search_url (query : string) : string :=
  ("https://api.weatherapi.com/v1/search.json?key=YOUR_API_KEY&q="
   ++ Text.encodeURIComponent query)%string.

(** A body that is no array has no [map]: the call throws. *)
Definition searchLocations (query : string) : Eff Box unit :=
  if Text.len query <? 3 then modify (setSearchResults [])
  else
    (modify (setIsSearching true) ;;;
     finally
       (try_catch
          (response <- fetch (search_url query) ;;
           if Net.ok response then
             results <- json response ;;
             match results with
             | Net.BodyArray rs => modify (setSearchResults (map to_hit rs))
             | _ => throw OtherError
             end
           else modify (setSearchResults []))
          (fun _ => modify (setSearchResults [])))
       (setIsSearching false))%eff.

(** [onChange] of the input. *)
Definition onChange (value : string) : Eff Box unit :=
  (modify (setSearchQuery value) ;;; searchLocations value)%eff.

(** [handleSearch], the submit of the form. *)
Definition handleSearch : Eff Box unit :=
  fun net b => searchLocations (searchQuery b) net b.

Definition handleLocationSelect (location : Hit) (b : Box) : Box :=
  {| searchQuery := ""; searchResults := [];
     isSearching := isSearching b;
     shown := (shown b ++ [(ToastSuccess,
                            ("Weather updated for " ++ name location)%string)])%list;
     selected := (selected b ++ [location])%list |}.

End Box.
End SearchBox.

(* ===================================================================== *)
(** ** The unit toggle *)
(* ===================================================================== *)

Module UnitToggle.

(** [JSON.stringify] of a boolean. *)
Definition stringify (b : bool) : string := if b then "true" else "false".

(** White space of JSON texts: space, TAB, LF, CR. *)
Definition json_space (c : ascii) : bool :=
  let n := Text.code c in ((n =? 32) || (n =? 9) || (n =? 10) || (n =? 13))%N.

Fixpoint skip_space (s : string) : string :=
  match s with
  | EmptyString => EmptyString
  | String c s' => if json_space c then skip_space s' else s
  end.

Fixpoint all_space (s : string) : bool :=
  match s with
  | EmptyString => true
  | String c s' => json_space c && all_space s'
  end.

(** [JSON.parse] as far as the toggle needs it: the boolean a text denotes,
    or [None] when the text is malformed or denotes something else. *)
Definition parse_boolean (s : string) : option bool :=
  let t := skip_space s in
  if String.prefix "true" t
     && all_space (String.substring 4 (String.length t - 4) t)
  then Some true
  else if String.prefix "false" t
          && all_space (String.substring 5 (String.length t - 5) t)
  then Some false
  else None.

(** The entry [weather-unit-celsius] of the storage, the state of the
    component and the values handed to [onUnitChange], oldest first. *)
Record Toggle : Type := {
  storage : option string;
  isCelsius : bool;
  reported : list bool
}.

(** The initial state: the stored value if there is one, [true] if not.
    [None] when the stored text is no boolean. *)
Definition initial (saved : option string) : option bool :=
  match saved with
  | Some text => parse_boolean text
  | None => Some true
  end.

(** The effect: it writes the state to the storage and reports it. *)
Definition effect (t : Toggle) : Toggle :=
  {| storage := Some (stringify (isCelsius t));
     isCelsius := isCelsius t;
     reported := (reported t ++ [isCelsius t])%list |}.

(** Mounting: the initial state, then the effect. *)
Definition mount (saved : option string) : option Toggle :=
  match initial saved with
  | Some b => Some (effect {| storage := saved; isCelsius := b; reported := [] |})
  | None => None
  end.

(** [handleToggle]: the state is set; the effect runs when it changed
    (the callback [onUnitChange] of the parent is taken to stay the same
    function). *)
Definition handleToggle (checked : bool) (t : Toggle) : Toggle :=
  if Bool.eqb checked (isCelsius t) then t
  else effect {| storage := storage t; isCelsius := checked;
                 reported := reported t |}.

End UnitToggle.

(* ===================================================================== *)
(** ** Vocabulary of the statements *)
(* ===================================================================== *)

Module Vocabulary.
Import Regex.

(** Some substring of the text is a word of the pattern. *)
Definition occurs (r : regex) (t : list ascii) : Prop :=
  exists pre m post, t = (pre ++ m ++ post)%list /\ lang r m.

(** Equality of two characters under the [i] flag. *)
Definition same_letter (a b : ascii) : Prop :=
  Text.canonicalize a = Text.canonicalize b.

Definition white (c : ascii) : Prop := Text.is_white_space c = true.
Definition wordy (c : ascii) : Prop := Text.is_word_char c = true.

(** A word that starts and ends with something other than white space. *)
Definition solid (m : list ascii) : Prop :=
  (exists x m', m = x :: m' /\ Text.is_white_space x = false)
  /\ (exists m' y, m = (m' ++ [y])%list /\ Text.is_white_space y = false).

(** The text contains [lit], letters compared without regard to case. *)
Definition contains_i (lit t : string) : Prop :=
  exists pre m post,
    list_ascii_of_string t = (pre ++ m ++ post)%list
    /\ Forall2 same_letter m (list_ascii_of_string lit).

(** The text contains [on], at least one word character, any white space
    and an equals sign, in a row: an inline event-handler attribute. *)
Definition has_event_handler (t : string) : Prop :=
  exists pre o w sp post,
    list_ascii_of_string t = (pre ++ (o ++ w ++ sp ++ ["="%char]) ++ post)%list
    /\ Forall2 same_letter o (list_ascii_of_string "on")
    /\ w <> [] /\ Forall wordy w /\ Forall white sp.

Definition dangerous (t : string) : Prop :=
  contains_i "<script" t \/ contains_i "javascript:" t
  \/ has_event_handler t \/ contains_i "data:" t.

(** The URL [geocodeLocation] requests for an input. *)
Definition url_of (s : string) : string :=
  GeocodingService.search_url (Text.trim s).

(** The failure of evaluating the name [GeocodingError]. *)
Definition not_defined : Thrown := ReferenceError "GeocodingError".

(** The text a raw coordinate has inside a template literal: a number is
    printed, a text is taken as it is. *)
Inductive raw_text `{JsNumbers} : Net.RawCoord -> string -> Prop :=
| raw_text_number n : raw_text (Net.RawNumber n) (number_to_string n)
| raw_text_string s : raw_text (Net.RawString s) s.

(** The outcome is a failure that carries the code [c], with some message. *)
Definition fails_with {A} (r : Res A) (c : ErrorCode) : Prop :=
  exists m, r = Throw (GeoError {| message := m; code := c |}).

Section Hook.
Import Timers UseLocationSearch.

(** The live timer, if any, is the one the hook holds in [debounceRef]. *)
Definition one_timer (h : Hook) : Prop :=
  pending (loop h) = []
  \/ exists t, pending (loop h) = [t] /\ debounceRef h = Some (timer_id t).

(** One timer is live, it carries [q] and comes due [remaining] from now. *)
Definition armed (h : Hook) (q : string) (remaining : Z) : Prop :=
  exists t, pending (loop h) = [t]
            /\ debounceRef h = Some (timer_id t)
            /\ timer_query t = q
            /\ timer_due t = clock (loop h) + remaining.






End Hook.

End Vocabulary.

(* ===================================================================== *)
(** ** A runtime to run the model on: integer-valued numbers *)
(* ===================================================================== *)

Module IntegerNumbers.

(** [None] is [NaN]. Only integers and their decimal texts are covered. *)
Definition print (n : option Z) : string :=
  match n with
  | Some z => DecimalString.NilZero.string_of_int (Z.to_int z)
  | None => "NaN"
  end.

Definition parse (s : string) : option Z :=
  option_map Z.of_int (DecimalString.NilZero.int_of_string s).

Definition integers : JsNumbers :=
  {| number := option Z; number_to_string := print; parseFloat := parse |}.

End IntegerNumbers.

(* ===================================================================== *)
(** ** Sample networks and records *)
(* ===================================================================== *)

Module Samples.
Import IntegerNumbers GeocodingService UseLocationSearch.

Definition paris : @Net.UpstreamRecord integers :=
  {| Net.r_name := "Paris"; Net.r_region := Some "Ile-de-France";
     Net.r_country := "France";
     Net.r_lat := Net.RawNumber (H := integers) (Some 49);
     Net.r_lon := Net.RawNumber (H := integers) (Some 2) |}.

Definition singapore : @Net.UpstreamRecord integers :=
  {| Net.r_name := "Singapore"; Net.r_region := Some "";
     Net.r_country := "Singapore";
     Net.r_lat := Net.RawString (H := integers) "1";
     Net.r_lon := Net.RawString (H := integers) "104" |}.

Definition monaco : @Net.UpstreamRecord integers :=
  {| Net.r_name := "Monaco"; Net.r_region := None;
     Net.r_country := "Monaco";
     Net.r_lat := Net.RawNumber (H := integers) (Some 44);
     Net.r_lon := Net.RawNumber (H := integers) (Some 7) |}.

(** Every request is answered with the given status and an empty object. *)
Definition answers_status (st : Z) : @Net.Network integers :=
  fun _ => Net.FetchResponse {| Net.status := st; Net.body := Net.BodyNotArray |}.

(** Every request is answered with 200 and the given array. *)
Definition answers (rs : list (@Net.UpstreamRecord integers))
  : @Net.Network integers :=
  fun _ => Net.FetchResponse {| Net.status := 200; Net.body := Net.BodyArray rs |}.

(** No request gets through. *)
Definition offline : @Net.Network integers := fun _ => Net.FetchRejected.

Definition paris_location : @LocationSearch.Location integers :=
  @LocationSearch.Build_Location integers
    "49-2" "Paris" "Ile-de-France" "France" (Some 49) (Some 2).

Definition monaco_location : @LocationSearch.Location integers :=
  @LocationSearch.Build_Location integers
    "44-7" "Monaco" "" "Monaco" (Some 44) (Some 7).

Definition saved_both : @LocationSearch.Saved integers :=
  {| LocationSearch.savedLocations := [paris_location; monaco_location];
     LocationSearch.stored := Some [paris_location; monaco_location];
     LocationSearch.toasts := [] |}.

(** The service and the hook on these inputs. *)
Definition search (s : string) (net : @Net.Network integers) :=
  @geocodeLocation integers unit s net tt.

Definition suggest (s : string) (net : @Net.Network integers) :=
  @getSuggestions integers unit s net tt.

Definition manual (q : string) (net : @Net.Network integers) :=
  @manualSearch defaults integers q net init.

Definition ids (r : Res (list (@GeocodingResult integers))) : list string :=
  match r with Ok l => map id l | Throw _ => [] end.

Definition addresses (r : Res (list (@GeocodingResult integers)))
  : list (option string) :=
  match r with Ok l => map formatted_address l | Throw _ => [] end.

End Samples.

(* ===================================================================== *)
(** ** Further vocabulary and samples *)
(* ===================================================================== *)

Module MoreVocabulary.

(** A character that may stand in a percent-encoded text. *)
Definition encoded_char (c : ascii) : Prop :=
  Text.is_unreserved c = true \/ c = "%"%char.

(** The events that only let time pass. *)
Definition waits (dts : list Z) : list UseLocationSearch.Event :=
  map UseLocationSearch.Elapsed dts.

(** The text was typed in the course of the events. *)
Definition typed_in (es : list UseLocationSearch.Event) (q : string) : Prop :=
  In (UseLocationSearch.Typed q) es.

(** [P] holds of every text a timer carries, of every text that was
    committed and of the debounced query unless that is empty. *)
Definition texts_satisfy (P : string -> Prop) (h : UseLocationSearch.Hook)
  : Prop :=
  Forall (fun t => P (Timers.timer_query t))
    (Timers.pending (UseLocationSearch.loop h))
  /\ Forall P (UseLocationSearch.fired h)
  /\ (UseLocationSearch.debouncedQuery h = ""
      \/ P (UseLocationSearch.debouncedQuery h)).

(** After the effect has run, the storage holds the state and the last
    report is the state. *)
Definition settled (t : UnitToggle.Toggle) : Prop :=
  UnitToggle.storage t = Some (UnitToggle.stringify (UnitToggle.isCelsius t))
  /\ exists before,
       UnitToggle.reported t = (before ++ [UnitToggle.isCelsius t])%list.

(** The manual entry as the component calls it. *)
Definition panel_entry `{JsNumbers} (location : string)
  : Eff SearchPanel.Panel unit :=
  ManualEntry.handleManualLocationEntry SearchPanel.toast
    (fun result =>
       SearchPanel.handleLocationSelect (SearchPanel.convertToLocation result))
    (Some (fun _ p => p)) location.

End MoreVocabulary.

Module MoreSamples.
Import IntegerNumbers Samples.

(** A caller state that only keeps a log: the toasts, and the callbacks with
    what they were given. *)
Definition Log : Type := (list Toast * list (string * string))%type.

Definition log_toast (k : ToastKind) (m : string) (st : Log) : Log :=
  ((fst st ++ [(k, m)])%list, snd st).

Definition log_success (r : @GeocodingService.GeocodingResult integers)
  (st : Log) : Log :=
  (fst st, (snd st ++ [("onSuccess", GeocodingService.id r)])%list).

Definition log_error (e : GeocodingError) (st : Log) : Log :=
  (fst st, (snd st ++ [("onError", message e)])%list).

Definition entry (s : string) (net : @Net.Network integers) :=
  @ManualEntry.handleManualLocationEntry integers Log
    log_toast log_success (Some log_error) s net ([], []).

Definition submit (s : string) (net : @Net.Network integers) :=
  @SearchPanel.onManualSubmit integers s net SearchPanel.start.

Definition box_search (s : string) (net : @Net.Network integers) :=
  @SearchBox.searchLocations integers s net SearchBox.start.

(** Every request is answered with 200 and a body that is no JSON. *)
Definition answers_garbage : @Net.Network integers :=
  fun _ => Net.FetchResponse
             {| Net.status := 200; Net.body := Net.BodyUnparsable |}.

(** The hook with a minimum length of 2. *)
Definition eager : UseLocationSearch.Options :=
  {| UseLocationSearch.debounceMs := 300;
     UseLocationSearch.minSearchLength := 2;
     UseLocationSearch.maxResults := 10 |}.

(** The panel after [Par] was typed into the search field. *)
Definition typing_panel : @SearchPanel.Panel integers :=
  SearchPanel.with_hook
    (fun _ => UseLocationSearch.run SearchPanel.options
                [UseLocationSearch.Typed "Par"] UseLocationSearch.init)
    SearchPanel.start.

(** The toggle mounted on a stored [false]. *)
Definition fahrenheit : UnitToggle.Toggle :=
  {| UnitToggle.storage := Some "false"; UnitToggle.isCelsius := false;
     UnitToggle.reported := [false] |}.

Definition saved_none : @LocationSearch.Saved integers :=
  {| LocationSearch.savedLocations := [];
     LocationSearch.stored := None;
     LocationSearch.toasts := [] |}.

End MoreSamples.

(* ===================================================================== *)
(** * Properties *)
(* ===================================================================== *)

(** ** Regular expressions: the matcher decides the language *)

Module RegexFacts.
Import Regex Vocabulary.

Lemma lang_void_inv w : lang Void w -> False.
Proof. inversion 1. Qed.

Lemma lang_eps_inv w : lang Eps w -> w = [].
Proof. now inversion 1. Qed.

Lemma lang_class_inv p w : lang (Class p) w -> exists c, w = [c] /\ p c = true.
Proof. inversion 1; subst; eauto. Qed.

Lemma lang_seq_inv r1 r2 w :
  lang (Seq r1 r2) w ->
  exists w1 w2, w = (w1 ++ w2)%list /\ lang r1 w1 /\ lang r2 w2.
Proof. inversion 1; subst; eauto. Qed.

Lemma lang_alt_inv r1 r2 w : lang (Alt r1 r2) w -> lang r1 w \/ lang r2 w.
Proof. inversion 1; subst; auto. Qed.

Lemma lang_seq_cons r1 r2 c w1 w2 :
  lang r1 (c :: w1) -> lang r2 w2 -> lang (Seq r1 r2) (c :: w1 ++ w2).
Proof.
  intros H1 H2. change (c :: w1 ++ w2)%list with ((c :: w1) ++ w2)%list.
  now constructor.
Qed.

Lemma nullable_lang r : nullable r = true <-> lang r [].
Proof.
  induction r as [| |p|r1 IH1 r2 IH2|r1 IH1 r2 IH2|r IH]; simpl.
  - split; [discriminate | intros H; destruct (lang_void_inv H)].
  - split; [constructor | reflexivity].
  - split; [discriminate |].
    intros H. apply lang_class_inv in H. destruct H as (c & E & _).
    discriminate.
  - rewrite andb_true_iff, IH1, IH2. split.
    + intros [H1 H2]. change (@nil ascii) with (@nil ascii ++ [])%list.
      now constructor.
    + intros H. apply lang_seq_inv in H.
      destruct H as (w1 & w2 & E & H1 & H2). symmetry in E.
      destruct (app_eq_nil _ _ E) as [-> ->]. now split.
  - rewrite orb_true_iff, IH1, IH2. split.
    + intros [H|H]; [now apply L_alt_l | now apply L_alt_r].
    + apply lang_alt_inv.
  - split; [constructor | reflexivity].
Qed.

(** A non-empty word of a star starts with a non-empty word of its body. *)
Lemma star_cons_inv r c w :
  lang (Star r) (c :: w) ->
  exists w1 w2, w = (w1 ++ w2)%list /\ lang r (c :: w1) /\ lang (Star r) w2.
Proof.
  intros H. remember (Star r) as s eqn:Es. remember (c :: w) as cw eqn:Ew.
  revert c w Ew.
  induction H as [| | | | | |r' w1 w2 H1 _ H2 IH2]; intros x v Ew;
    try discriminate.
  injection Es as ->.
  destruct w1 as [|a w1]; simpl in Ew.
  - apply IH2; [reflexivity | assumption].
  - injection Ew as E1 E2. subst a v. exists w1, w2. auto.
Qed.

Lemma deriv_lang c r : forall w, lang (deriv c r) w <-> lang r (c :: w).
Proof.
  induction r as [| |p|r1 IH1 r2 IH2|r1 IH1 r2 IH2|r IH]; intros w; simpl.
  - split; intros H; destruct (lang_void_inv H).
  - split; intros H; [destruct (lang_void_inv H) |].
    apply lang_eps_inv in H. discriminate.
  - destruct (p c) eqn:Hp; split; intros H.
    + apply lang_eps_inv in H. subst w. now constructor.
    + apply lang_class_inv in H. destruct H as (c' & E & _).
      injection E as _ ->. constructor.
    + destruct (lang_void_inv H).
    + apply lang_class_inv in H. destruct H as (c' & E & Hc).
      injection E as <- _. congruence.
  - destruct (nullable r1) eqn:Hn; split; intros H.
    + apply lang_alt_inv in H. destruct H as [H|H].
      * apply lang_seq_inv in H. destruct H as (w1 & w2 & -> & Ha & Hb).
        apply lang_seq_cons; [now apply IH1 | assumption].
      * apply nullable_lang in Hn.
        change (c :: w) with ([] ++ c :: w)%list.
        constructor; [assumption | now apply IH2].
    + apply lang_seq_inv in H. destruct H as (w1 & w2 & E & Ha & Hb).
      destruct w1 as [|a w1]; simpl in E.
      * subst w2. apply L_alt_r. now apply IH2.
      * injection E as <- ->. apply L_alt_l.
        constructor; [now apply IH1 | assumption].
    + apply lang_seq_inv in H. destruct H as (w1 & w2 & -> & Ha & Hb).
      apply lang_seq_cons; [now apply IH1 | assumption].
    + apply lang_seq_inv in H. destruct H as (w1 & w2 & E & Ha & Hb).
      destruct w1 as [|a w1]; simpl in E.
      * apply nullable_lang in Ha. congruence.
      * injection E as <- ->. constructor; [now apply IH1 | assumption].
  - split; intros H; apply lang_alt_inv in H; destruct H as [H|H];
      solve [apply L_alt_l; now apply IH1 | apply L_alt_r; now apply IH2].
  - split; intros H.
    + apply lang_seq_inv in H. destruct H as (w1 & w2 & -> & Ha & Hb).
      change (c :: w1 ++ w2)%list with ((c :: w1) ++ w2)%list.
      constructor; [now apply IH | assumption].
    + apply star_cons_inv in H.
      destruct H as (w1 & w2 & -> & Ha & Hb).
      constructor; [now apply IH | assumption].
Qed.

Theorem accepts_lang r w : accepts r w = true <-> lang r w.
Proof.
  revert r. induction w as [|c w IH]; intros r; simpl.
  - apply nullable_lang.
  - rewrite IH. apply deriv_lang.
Qed.

Lemma star_any w : lang (Star any) w.
Proof.
  induction w as [|c w IH]; [constructor |].
  change (c :: w) with ([c] ++ w)%list.
  constructor; [now constructor | assumption].
Qed.

Theorem test_occurs r s :
  test r s = true <-> occurs r (list_ascii_of_string s).
Proof.
  unfold test, occurs. rewrite accepts_lang. split.
  - intros H. apply lang_seq_inv in H.
    destruct H as (pre & w2 & -> & _ & H).
    apply lang_seq_inv in H. destruct H as (m & post & -> & Hm & _).
    now exists pre, m, post.
  - intros (pre & m & post & -> & Hm).
    constructor; [apply star_any |].
    constructor; [assumption | apply star_any].
Qed.

End RegexFacts.

(** ** Texts *)

Module TextFacts.

Lemma append_assoc (a b c : string) : ((a ++ b) ++ c = a ++ (b ++ c))%string.
Proof. induction a as [|x a IH]; simpl; [reflexivity | now rewrite IH]. Qed.

Lemma chars_length (a : string) :
  List.length (list_ascii_of_string a) = String.length a.
Proof. induction a as [|x a IH]; simpl; [reflexivity | now rewrite IH]. Qed.

End TextFacts.

(** ** The geocoding service *)

Module ServiceFacts.
Import EffOps GeocodingService Vocabulary.

Section Facts.
Context `{JsNumbers}.
Implicit Types (net : Net.Network) (s : string).

(** The first guard of [geocodeLocation] only asks for two characters
    after trimming: the empty text trims to nothing. *)
Lemma guard_short s :
  negb (Text.truthy s) || (Text.len (Text.trim s) <? 2)
  = (Text.len (Text.trim s) <? 2).
Proof. destruct s; reflexivity. Qed.

Lemma geocodeLocation_short {S} s net (st : S) :
  Text.len (Text.trim s) < 2 ->
  geocodeLocation s net st = (Throw not_defined, st, []).
Proof.
  intros Hs. unfold geocodeLocation. rewrite guard_short.
  apply Z.ltb_lt in Hs. now rewrite Hs.
Qed.

Lemma geocodeLocation_rejected {S} s net (st : S) :
  2 <= Text.len (Text.trim s) ->
  net (url_of s) = Net.FetchRejected ->
  geocodeLocation s net st = (Throw not_defined, st, [url_of s]).
Proof.
  intros Hs Hn. unfold geocodeLocation. rewrite guard_short.
  apply Z.ltb_ge in Hs. rewrite Hs.
  unfold try_catch, bind, fetch. fold (url_of s). rewrite Hn. reflexivity.
Qed.

Lemma geocodeLocation_not_ok {S} s net (st : S) r :
  2 <= Text.len (Text.trim s) ->
  net (url_of s) = Net.FetchResponse r ->
  Net.ok r = false ->
  geocodeLocation s net st = (Throw not_defined, st, [url_of s]).
Proof.
  intros Hs Hn Hok. unfold geocodeLocation. rewrite guard_short.
  apply Z.ltb_ge in Hs. rewrite Hs.
  unfold try_catch, bind, fetch. fold (url_of s). rewrite Hn, Hok. simpl.
  destruct (Net.status r =? 401); [reflexivity |].
  destruct (Net.status r =? 429); reflexivity.
Qed.

Lemma geocodeLocation_ok {S} s net (st : S) r :
  2 <= Text.len (Text.trim s) ->
  net (url_of s) = Net.FetchResponse r ->
  Net.ok r = true ->
  geocodeLocation s net st
  = (match Net.body r with
     | Net.BodyArray (x :: rs) => Ok (map to_result (x :: rs))
     | _ => Throw not_defined
     end, st, [url_of s]).
Proof.
  intros Hs Hn Hok. unfold geocodeLocation. rewrite guard_short.
  apply Z.ltb_ge in Hs. rewrite Hs.
  unfold try_catch, bind, fetch, json. fold (url_of s). rewrite Hn, Hok.
  simpl. destruct (Net.body r) as [| |[|x rs]]; reflexivity.
Qed.

(** The service never touches the state of its caller, and what it
    returns does not depend on it. *)
Lemma geocodeLocation_state {S} s net (st : S) :
  geocodeLocation s net st
  = (result_of (geocodeLocation s net tt), st,
     requests_of (geocodeLocation s net tt)).
Proof.
  destruct (Z.lt_ge_cases (Text.len (Text.trim s)) 2) as [Hs|Hs].
  - now rewrite !geocodeLocation_short.
  - destruct (net (url_of s)) as [|r] eqn:Hn.
    + now rewrite !geocodeLocation_rejected.
    + destruct (Net.ok r) eqn:Hok.
      * now rewrite (@geocodeLocation_ok _ s net st r Hs Hn Hok),
          (@geocodeLocation_ok _ s net tt r Hs Hn Hok).
      * now rewrite (@geocodeLocation_not_ok _ s net st r Hs Hn Hok),
          (@geocodeLocation_not_ok _ s net tt r Hs Hn Hok).
Qed.

(** Every failure of [geocodeLocation] is the [ReferenceError] of the name
    [GeocodingError]: none of the errors it means to build comes about. *)
Lemma geocodeLocation_throws {S} s net (st : S) e :
  result_of (geocodeLocation s net st) = Throw e -> e = not_defined.
Proof.
  destruct (Z.lt_ge_cases (Text.len (Text.trim s)) 2) as [Hs|Hs].
  - rewrite geocodeLocation_short by assumption. cbn. now intros [= <-].
  - destruct (net (url_of s)) as [|r] eqn:Hn.
    + rewrite geocodeLocation_rejected by assumption. cbn. now intros [= <-].
    + destruct (Net.ok r) eqn:Hok.
      * rewrite (@geocodeLocation_ok _ s net st r Hs Hn Hok). cbn.
        destruct (Net.body r) as [| |[|x rs]]; intros [= <-]; reflexivity.
      * rewrite (@geocodeLocation_not_ok _ s net st r Hs Hn Hok). cbn.
        now intros [= <-].
Qed.

(** When [geocodeLocation] returns a list: the text keeps two characters
    after trimming and the request is answered, with a status from 200 to
    299 and a body that is an array with a first record. *)
Lemma geocodeLocation_returns {S} s net (st : S) places :
  result_of (geocodeLocation s net st) = Ok places ->
  2 <= Text.len (Text.trim s)
  /\ exists r x rs,
       net (url_of s) = Net.FetchResponse r
       /\ Net.ok r = true
       /\ Net.body r = Net.BodyArray (x :: rs)
       /\ places = map to_result (x :: rs).
Proof.
  destruct (Z.lt_ge_cases (Text.len (Text.trim s)) 2) as [Hs|Hs].
  { rewrite geocodeLocation_short by assumption. discriminate. }
  destruct (net (url_of s)) as [|r] eqn:Hn.
  { rewrite geocodeLocation_rejected by assumption. discriminate. }
  destruct (Net.ok r) eqn:Hok.
  2:{ rewrite (@geocodeLocation_not_ok _ s net st r Hs Hn Hok). discriminate. }
  rewrite (@geocodeLocation_ok _ s net st r Hs Hn Hok). cbn.
  destruct (Net.body r) as [| |[|x rs]] eqn:Hb; try discriminate.
  intros [= <-]. split; [assumption |]. now exists r, x, rs.
Qed.

End Facts.
End ServiceFacts.

Module ServiceClaims.
Import EffOps GeocodingService ServiceFacts Vocabulary.

Section Claims.
Context `{JsNumbers}.
Implicit Types (net : Net.Network) (s : string).

(** C4. [getSuggestions] gives the empty list and requests nothing when
    the text is shorter than 3; otherwise it makes the requests of
    [geocodeLocation], passes its list on and turns each of its failures
    into the empty list. In every case it returns a list. *)
Theorem suggestions_never_fail {S} s net (st : S) :
  (exists l, result_of (getSuggestions s net st) = Ok l)
  /\ (Text.len s < 3 ->
      result_of (getSuggestions s net st) = Ok []
      /\ requests_of (getSuggestions s net st) = [])
  /\ (3 <= Text.len s ->
      requests_of (getSuggestions s net st)
      = requests_of (geocodeLocation s net st)
      /\ (forall l, result_of (geocodeLocation s net st) = Ok l ->
            result_of (getSuggestions s net st) = Ok l)
      /\ (forall e, result_of (geocodeLocation s net st) = Throw e ->
            result_of (getSuggestions s net st) = Ok [])).
Proof.
  unfold getSuggestions.
  destruct (Text.len s <? 3) eqn:Hl.
  - apply Z.ltb_lt in Hl. cbn. split; [eexists; reflexivity |].
    split; [intros _; split; reflexivity | lia].
  - apply Z.ltb_ge in Hl. unfold try_catch.
    destruct (geocodeLocation s net st) as [[[l|e] st'] log] eqn:Hg; cbn.
    + split; [eexists; reflexivity |]. split; [lia |]. intros _.
      split; [reflexivity |]. split; [intros ? [= <-]; reflexivity |].
      intros ? [=].
    + split; [eexists; reflexivity |]. split; [lia |]. intros _.
      split; [apply app_nil_r |]. split; [intros ? [=] |].
      intros ? _. reflexivity.
Qed.

(** C6. A successful [geocodeLocation] maps the records of the response,
    in order, each to a result whose [id] is the raw latitude, a hyphen and
    the raw longitude, each as it stands in a text (a number printed, a
    text unchanged, neither parsed), and whose [formatted_address] is
    name, comma, region and comma when the record carries a non-empty
    region, and country. *)
Theorem success_maps_records {S} s net (st : S) places :
  result_of (geocodeLocation s net st) = Ok places ->
  exists r records,
    net (url_of s) = Net.FetchResponse r
    /\ Net.body r = Net.BodyArray records
    /\ places = map to_result records
    /\ Forall2
         (fun rec p =>
            (exists latitude longitude,
               raw_text (Net.r_lat rec) latitude
               /\ raw_text (Net.r_lon rec) longitude
               /\ id p = (latitude ++ "-" ++ longitude)%string)
            /\ (forall reg, Net.r_region rec = Some reg -> reg <> "" ->
                  formatted_address p
                  = Some (Net.r_name rec ++ ", " ++ reg ++ ", "
                          ++ Net.r_country rec)%string)
            /\ (Net.r_region rec = None \/ Net.r_region rec = Some "" ->
                  formatted_address p
                  = Some (Net.r_name rec ++ ", " ++ Net.r_country rec)%string))
         records places.
Proof.
  intros Hr.
  destruct (geocodeLocation_returns s net st Hr)
    as (_ & r & x & rs & Hn & _ & Hb & ->).
  exists r, (x :: rs). split; [assumption |]. split; [assumption |].
  split; [reflexivity |].
  generalize (x :: rs). intros l. induction l as [|y l IH]; constructor;
    [| exact IH].
  split; [| split].
  - exists (coord_text (Net.r_lat y)), (coord_text (Net.r_lon y)).
    split; [destruct (Net.r_lat y); constructor |].
    split; [destruct (Net.r_lon y); constructor | reflexivity].
  - intros reg Hreg Hne. unfold to_result; cbn. rewrite Hreg.
    destruct reg; [congruence |]. cbn.
    now rewrite TextFacts.append_assoc.
  - unfold to_result; cbn. intros [-> | ->]; cbn; reflexivity.
Qed.

End Claims.

(** C9 on the code. On the empty text and on [ a ], whose trimmed length
    is 1, [geocodeLocation] requests nothing, as C9 has it. But its
    failure is no [INVALID_INPUT] error: the guard goes on to
    [new GeocodingError], the name is bound to no value, and the call
    fails with the [ReferenceError] of that name instead. *)
Theorem short_input_raises_reference_error :
  (Text.len (Text.trim "") < 2 /\ Text.len (Text.trim " a ") < 2)
  /\ Samples.search "" Samples.offline
     = (Throw (ReferenceError "GeocodingError"), tt, [])
  /\ Samples.search " a " (Samples.answers [Samples.paris])
     = (Throw (ReferenceError "GeocodingError"), tt, [])
  /\ ~ fails_with (result_of (Samples.search "" Samples.offline)) INVALID_INPUT
  /\ ~ fails_with (result_of (Samples.search " a "
                              (Samples.answers [Samples.paris])))
        INVALID_INPUT.
Proof.
  split; [split; reflexivity |]. split; [reflexivity |].
  split; [reflexivity |]. split; intros (m & E); discriminate E.
Qed.

(** C3 on the code. [geocodeLocation] on [Paris] makes its one request;
    when the answer is status 401, status 429, status 503 or no answer at
    all, the failure is neither an [API_ERROR] nor a [NETWORK_ERROR]
    error: building either evaluates the name [GeocodingError], as does
    the test in the [catch], the name is bound to no value, and in all
    four cases the call fails with the [ReferenceError] of that name. *)
Theorem transport_failures_raise_reference_error :
  let unbound := Throw (ReferenceError "GeocodingError") in
  let asked := [url_of "Paris"] in
  2 <= Text.len (Text.trim "Paris")
  /\ Samples.search "Paris" (Samples.answers_status 401) = (unbound, tt, asked)
  /\ Samples.search "Paris" (Samples.answers_status 429) = (unbound, tt, asked)
  /\ Samples.search "Paris" (Samples.answers_status 503) = (unbound, tt, asked)
  /\ Samples.search "Paris" Samples.offline = (unbound, tt, asked)
  /\ (forall st, ~ fails_with (result_of (Samples.search "Paris"
                                          (Samples.answers_status st)))
                    API_ERROR)
  /\ ~ fails_with (result_of (Samples.search "Paris" Samples.offline))
        NETWORK_ERROR.
Proof.
  cbv zeta. split; [cbn; lia |]. split; [reflexivity |].
  split; [reflexivity |]. split; [reflexivity |]. split; [reflexivity |].
  split.
  - intros st (m & E).
    apply (@geocodeLocation_throws IntegerNumbers.integers unit) in E.
    discriminate E.
  - intros (m & E). discriminate E.
Qed.

End ServiceClaims.

(** ** Input validation *)

Module PatternFacts.
Import Regex RegexFacts Vocabulary.

Lemma lang_chr_i c w :
  lang (chr_i c) w <-> exists x, w = [x] /\ same_letter x c.
Proof.
  unfold chr_i, same_letter. split.
  - intros Hl. apply lang_class_inv in Hl. destruct Hl as (x & -> & Hx).
    exists x. split; [reflexivity | now apply Ascii.eqb_eq].
  - intros (x & -> & Hx). constructor. now apply Ascii.eqb_eq.
Qed.

Lemma lang_lit_i s : forall w,
  lang (lit_i s) w <-> Forall2 same_letter w (list_ascii_of_string s).
Proof.
  induction s as [|c s IH]; intros w; simpl.
  - split.
    + intros Hl. apply lang_eps_inv in Hl. subst. constructor.
    + inversion 1. constructor.
  - split.
    + intros Hl. apply lang_seq_inv in Hl.
      destruct Hl as (w1 & w2 & -> & H1 & H2).
      apply lang_chr_i in H1. destruct H1 as (x & -> & Hx).
      constructor; [assumption | now apply IH].
    + inversion 1 as [|x y w' l' Hx Hw]; subst.
      change (x :: w') with ([x] ++ w')%list.
      constructor; [apply lang_chr_i; eauto | now apply IH].
Qed.

Lemma lang_star_class p w :
  lang (Star (Class p)) w <-> Forall (fun c => p c = true) w.
Proof.
  split.
  - induction w as [|c w IH]; intros Hl; [constructor |].
    apply star_cons_inv in Hl. destruct Hl as (w1 & w2 & -> & H1 & H2).
    apply lang_class_inv in H1. destruct H1 as (x & E & Hx).
    injection E as E1 E2. subst x w1. constructor; [assumption | now apply IH].
  - induction 1 as [|c w Hc _ IH]; [constructor |].
    change (c :: w) with ([c] ++ w)%list.
    constructor; [now constructor | assumption].
Qed.

Lemma lang_plus_class p w :
  lang (plus (Class p)) w <-> w <> [] /\ Forall (fun c => p c = true) w.
Proof.
  unfold plus. split.
  - intros Hl. apply lang_seq_inv in Hl.
    destruct Hl as (w1 & w2 & -> & H1 & H2).
    apply lang_class_inv in H1. destruct H1 as (x & -> & Hx).
    apply lang_star_class in H2. split; [discriminate | now constructor].
  - intros [Hne Hall]. destruct w as [|c w]; [congruence |].
    inversion Hall; subst. change (c :: w) with ([c] ++ w)%list.
    constructor; [now constructor | now apply lang_star_class].
Qed.

End PatternFacts.

Module TrimFacts.
Import Text TextFacts Vocabulary.


Lemma trimStart_split s :
  exists a, list_ascii_of_string s = (a ++ list_ascii_of_string (trimStart s))%list /\ Forall white a.
Proof.
  induction s as [|c s IH]; simpl.
  - exists []. split; [reflexivity | constructor].
  - destruct (is_white_space c) eqn:Hc.
    + destruct IH as (a & E & Ha). exists (c :: a). simpl.
      split; [now rewrite E | now constructor].
    + exists []. split; [reflexivity | constructor].
Qed.

Lemma trimEnd_split s :
  exists b, list_ascii_of_string s = (list_ascii_of_string (trimEnd s) ++ b)%list /\ Forall white b.
Proof.
  induction s as [|c s IH]; simpl.
  - exists []. split; [reflexivity | constructor].
  - destruct IH as (b & E & Hb). destruct (trimEnd s) as [|d t] eqn:Ht.
    + simpl in E. destruct (is_white_space c) eqn:Hc.
      * exists (c :: b). simpl. split; [now rewrite E | now constructor].
      * exists b. simpl. split; [now rewrite E | assumption].
    + exists b. split; [| assumption]. rewrite E. reflexivity.
Qed.

Lemma trim_split s :
  exists a b, list_ascii_of_string s = (a ++ list_ascii_of_string (trim s) ++ b)%list
              /\ Forall white a /\ Forall white b.
Proof.
  destruct (trimStart_split s) as (a & Ea & Ha).
  destruct (trimEnd_split (trimStart s)) as (b & Eb & Hb).
  exists a, b. unfold trim. rewrite Ea at 1. now rewrite Eb at 1.
Qed.

(** Trimming never makes a text longer. *)
Lemma trim_length s : len (trim s) <= len s.
Proof.
  destruct (trim_split s) as (a & b & E & _).
  unfold len. rewrite <- !chars_length, E, !length_app. lia.
Qed.

Lemma strip_front a : forall l pre m post,
  Forall white a ->
  (a ++ l = pre ++ m ++ post)%list ->
  (exists x m', m = x :: m' /\ is_white_space x = false) ->
  exists pre', pre = (a ++ pre')%list /\ l = (pre' ++ m ++ post)%list.
Proof.
  induction a as [|z a IH]; intros l pre m post Ha E Hm.
  - exists pre. now split.
  - inversion Ha as [|? ? Hz Ha']; subst.
    destruct pre as [|p pre].
    + destruct Hm as (x & m' & -> & Hx). simpl in E.
      injection E as -> _. unfold white in Hz. congruence.
    + simpl in E. injection E as -> E.
      destruct (IH _ _ _ _ Ha' E Hm) as (pre' & -> & El).
      exists pre'. now split.
Qed.

Lemma strip_back b l pre m post :
  Forall white b ->
  (l ++ b = pre ++ m ++ post)%list ->
  (exists m' y, m = (m' ++ [y])%list /\ is_white_space y = false) ->
  exists post', post = (post' ++ b)%list /\ l = (pre ++ m ++ post')%list.
Proof.
  intros Hb E Hm.
  assert (E' : (rev b ++ rev l = rev post ++ rev m ++ rev pre)%list).
  { rewrite <- !rev_app_distr, E, <- app_assoc. reflexivity. }
  apply strip_front in E'.
  - destruct E' as (q & Eq & El). exists (rev q). split.
    + rewrite <- (rev_involutive post), Eq, rev_app_distr, rev_involutive.
      reflexivity.
    + rewrite <- (rev_involutive l), El, !rev_app_distr, !rev_involutive.
      now rewrite <- app_assoc.
  - now apply Forall_rev.
  - destruct Hm as (m' & y & -> & Hy). exists y, (rev m').
    split; [| assumption]. now rewrite rev_app_distr.
Qed.

(** A solid word occurs in a text exactly when it occurs in the trimmed
    text. *)
Lemma occurs_trim (P : list ascii -> Prop) s :
  (forall m, P m -> solid m) ->
  (exists pre m post, list_ascii_of_string (trim s) = (pre ++ m ++ post)%list /\ P m)
  <-> (exists pre m post, list_ascii_of_string s = (pre ++ m ++ post)%list /\ P m).
Proof.
  intros Hsolid. destruct (trim_split s) as (a & b & E & Ha & Hb). split.
  - intros (pre & m & post & Et & Hm).
    exists (a ++ pre)%list, m, (post ++ b)%list. split; [| assumption].
    rewrite E, Et, <- !app_assoc. reflexivity.
  - intros (pre & m & post & Es & Hm).
    destruct (Hsolid m Hm) as [Hfront Hback].
    rewrite E in Es.
    destruct (@strip_front a _ _ _ _ Ha Es Hfront) as (pre' & _ & E1).
    destruct (@strip_back b _ _ _ _ Hb E1 Hback) as (post' & _ & E2).
    now exists pre', m, post'.
Qed.

Lemma canonicalize_white c :
  is_white_space (canonicalize c) = is_white_space c.
Proof. destruct c as [[] [] [] [] [] [] [] []]; reflexivity. Qed.

End TrimFacts.

Module ValidationFacts.
Import Regex RegexFacts PatternFacts TrimFacts Vocabulary GeocodingService.

Lemma same_letter_white x c :
  same_letter x c -> Text.is_white_space c = false ->
  Text.is_white_space x = false.
Proof.
  unfold same_letter. intros E Hc.
  now rewrite <- canonicalize_white, E, canonicalize_white.
Qed.

Lemma same_letter_equals x : same_letter x "="%char -> x = "="%char.
Proof.
  unfold same_letter.
  destruct x as [[] [] [] [] [] [] [] []]; vm_compute; congruence.
Qed.

(** A word equal to a literal up to case is solid when the literal is. *)
Lemma literal_solid m l :
  Forall2 same_letter m l -> solid l -> solid m.
Proof.
  intros Hm [(c & l' & El & Hc) (l'' & d & El' & Hd)]. split.
  - subst l. inversion Hm as [|x ? m' ? Hx _]; subst.
    exists x, m'. split; [reflexivity | now apply (same_letter_white Hx)].
  - subst l. rewrite El' in Hm. apply Forall2_app_inv_r in Hm.
    destruct Hm as (m1 & m2 & H1 & H2 & ->).
    inversion H2 as [|y ? ? ? Hy Hnil]; subst. inversion Hnil; subst.
    exists m1, y. split; [reflexivity | now apply (same_letter_white Hy)].
Qed.

Lemma occurs_lit_i lit t :
  occurs (lit_i lit) (list_ascii_of_string t) <-> contains_i lit t.
Proof.
  unfold occurs, contains_i. split; intros (pre & m & post & E & Hm);
    exists pre, m, post; (split; [assumption | now apply lang_lit_i]).
Qed.

Lemma lang_event_handler m :
  lang event_handler_pattern m <->
  exists o w sp,
    m = (o ++ w ++ sp ++ ["="%char])%list
    /\ Forall2 same_letter o (list_ascii_of_string "on")
    /\ w <> [] /\ Forall wordy w /\ Forall white sp.
Proof.
  unfold event_handler_pattern. split.
  - intros Hl. apply lang_seq_inv in Hl.
    destruct Hl as (o & m1 & -> & Ho & Hl). apply lang_seq_inv in Hl.
    destruct Hl as (w & m2 & -> & Hw & Hl). apply lang_seq_inv in Hl.
    destruct Hl as (sp & e & -> & Hsp & He).
    apply lang_lit_i in Ho, He. apply lang_plus_class in Hw.
    apply lang_star_class in Hsp. destruct Hw as [Hne Hw].
    inversion He as [|x ? ? ? Hx Hnil]; subst. inversion Hnil; subst.
    apply same_letter_equals in Hx. subst x.
    now exists o, w, sp.
  - intros (o & w & sp & -> & Ho & Hne & Hw & Hsp).
    constructor; [now apply lang_lit_i |].
    constructor; [now apply lang_plus_class |].
    constructor; [now apply lang_star_class |].
    apply lang_lit_i. repeat constructor.
Qed.

Lemma occurs_event_handler t :
  occurs event_handler_pattern (list_ascii_of_string t)
  <-> has_event_handler t.
Proof.
  unfold occurs, has_event_handler. split.
  - intros (pre & m & post & E & Hm). apply lang_event_handler in Hm.
    destruct Hm as (o & w & sp & -> & Hm). now exists pre, o, w, sp, post.
  - intros (pre & o & w & sp & post & E & Hm).
    exists pre, (o ++ w ++ sp ++ ["="%char])%list, post.
    split; [assumption |]. apply lang_event_handler. now exists o, w, sp.
Qed.

Lemma event_handler_solid m : lang event_handler_pattern m -> solid m.
Proof.
  intros Hm. apply lang_event_handler in Hm.
  destruct Hm as (o & w & sp & -> & Ho & _). split.
  - inversion Ho as [|x ? o' ? Hx _]; subst.
    exists x, (o' ++ w ++ sp ++ ["="%char])%list.
    split; [reflexivity |]. now apply (same_letter_white Hx).
  - exists (o ++ w ++ sp)%list, "="%char.
    split; [now rewrite <- !app_assoc | reflexivity].
Qed.

Lemma lit_i_solid lit m :
  solid (list_ascii_of_string lit) -> lang (lit_i lit) m -> solid m.
Proof. intros Hs Hm. apply lang_lit_i in Hm. exact (literal_solid Hm Hs). Qed.

Ltac solid_literal front back :=
  split; [eexists _, _; split; [reflexivity | reflexivity]
         | exists (list_ascii_of_string front), back;
           split; reflexivity].

Lemma script_solid : solid (list_ascii_of_string "<script").
Proof. solid_literal "<scrip" "t"%char. Qed.

Lemma javascript_solid : solid (list_ascii_of_string "javascript:").
Proof. solid_literal "javascript" ":"%char. Qed.

Lemma data_solid : solid (list_ascii_of_string "data:").
Proof. solid_literal "data" ":"%char. Qed.

(** The patterns see the same thing in a text and in the trimmed text. *)
Lemma occurs_pattern_trim r s :
  In r dangerousPatterns ->
  occurs r (list_ascii_of_string (Text.trim s))
  <-> occurs r (list_ascii_of_string s).
Proof.
  intros Hr. unfold occurs. apply occurs_trim.
  destruct Hr as [<-|[<-|[<-|[<-|[]]]]].
  - intros m. apply (@lit_i_solid "<script"). apply script_solid.
  - intros m. apply (@lit_i_solid "javascript:"). apply javascript_solid.
  - apply event_handler_solid.
  - intros m. apply (@lit_i_solid "data:"). apply data_solid.
Qed.

Lemma patterns_dangerous s :
  existsb (fun pattern => test pattern (Text.trim s)) dangerousPatterns = true
  <-> dangerous s.
Proof.
  rewrite existsb_exists. unfold dangerous. split.
  - intros (r & Hr & Ht). apply test_occurs in Ht.
    apply (occurs_pattern_trim s Hr) in Ht.
    destruct Hr as [<-|[<-|[<-|[<-|[]]]]].
    + left. now apply occurs_lit_i.
    + right; left. now apply occurs_lit_i.
    + right; right; left. now apply occurs_event_handler.
    + right; right; right. now apply occurs_lit_i.
  - intros [Hd|[Hd|[Hd|Hd]]].
    + exists (lit_i "<script"). split; [simpl; auto |].
      apply test_occurs, occurs_pattern_trim; [simpl; auto |].
      now apply occurs_lit_i.
    + exists (lit_i "javascript:"). split; [simpl; auto |].
      apply test_occurs, occurs_pattern_trim; [simpl; auto |].
      now apply occurs_lit_i.
    + exists event_handler_pattern. split; [simpl; auto |].
      apply test_occurs, occurs_pattern_trim; [simpl; auto |].
      now apply occurs_event_handler.
    + exists (lit_i "data:"). split; [simpl; auto 6 |].
      apply test_occurs, occurs_pattern_trim; [simpl; auto 6 |].
      now apply occurs_lit_i.
Qed.

(** The decision of [validateLocationInput] on a text that is there. *)
Lemma validate_decides s :
  isValid (validateLocationInput (Some s)) = false
  <-> Text.len (Text.trim s) < 2 \/ 100 < Text.len (Text.trim s)
      \/ dangerous s.
Proof.
  unfold validateLocationInput.
  destruct (Text.truthy s) eqn:Ht; cbn [negb].
  - destruct (Text.len (Text.trim s) <? 2) eqn:H2.
    { apply Z.ltb_lt in H2. split; [now left | reflexivity]. }
    apply Z.ltb_ge in H2.
    destruct (Text.len (Text.trim s) >? 100) eqn:H100.
    { apply Z.gtb_lt in H100. split; [right; now left | reflexivity]. }
    assert (Hle : Text.len (Text.trim s) <= 100).
    { rewrite Z.gtb_ltb in H100. now apply Z.ltb_ge in H100. }
    destruct (existsb _ dangerousPatterns) eqn:Hp.
    + apply patterns_dangerous in Hp. split; [auto | reflexivity].
    + split; [discriminate |]. intros [Hc|[Hc|Hc]]; [lia | lia |].
      apply patterns_dangerous in Hc. congruence.
  - destruct s; [| discriminate]. cbn.
    split; [intros _; left; reflexivity | reflexivity].
Qed.

End ValidationFacts.

Module ValidationClaims.
Import Vocabulary GeocodingService ValidationFacts.

Example validate_one_letter :
  isValid (validateLocationInput (Some "a")) = false.
Proof. reflexivity. Qed.

Example validate_too_long :
  isValid (validateLocationInput (Some (Text.repeat "a" 101))) = false.
Proof. reflexivity. Qed.

Example validate_script_tag :
  isValid (validateLocationInput (Some "<script>")) = false.
Proof. reflexivity. Qed.

Example validate_paris :
  isValid (validateLocationInput (Some "Paris")) = true.
Proof. reflexivity. Qed.

Example validate_event_handler :
  validateLocationInput (Some "x ONload  =y")
  = invalid "Invalid characters in location".
Proof. reflexivity. Qed.

(** C7, as the code has it. [validateLocationInput] answers invalid
    exactly when the text is absent, or its trimmed length is below 2, or
    its trimmed length is above 100, or it contains, letters compared
    without regard to case, an opening script tag, the [javascript:]
    scheme, an inline event-handler attribute or the [data:] scheme; it
    answers valid otherwise, and it is a total function. *)
Theorem validate_invalid_iff input :
  isValid (validateLocationInput input) = false
  <-> input = None
      \/ exists s, input = Some s
           /\ (Text.len (Text.trim s) < 2
               \/ 100 < Text.len (Text.trim s)
               \/ dangerous s).
Proof.
  destruct input as [s|].
  - rewrite validate_decides. split.
    + intros Hc. right. now exists s.
    + intros [Hc|(s' & [= <-] & Hc)]; [discriminate | assumption].
  - split; [now left | reflexivity].
Qed.

(** C7, as stated, fails: a text of 100 letters and one trailing space is
    101 long and is declared valid, because the bound of 100 is checked
    on the trimmed text. *)
Lemma validate_accepts_padded_text :
  100 < Text.len (Text.repeat "a" 100 ++ " ")
  /\ isValid (validateLocationInput (Some (Text.repeat "a" 100 ++ " "))) = true.
Proof. split; reflexivity. Qed.

Section Search.
Context `{JsNumbers}.


End Search.
End ValidationClaims.

(** ** The search hook: typing, timers and the debounced commit *)

Module HookFacts.
Import Timers UseLocationSearch Vocabulary.

Section Facts.
Variable opts : Options.


Lemma armed_one_timer h q k : armed h q k -> one_timer h.
Proof. intros (t & E & R & _). right. now exists t. Qed.

Lemma cancel_own_timer h :
  one_timer h ->
  match debounceRef h with
  | Some i => pending (clearTimeout i (loop h)) = []
  | None => pending (loop h) = []
  end.
Proof.
  intros [E|(t & E & R)].
  - destruct (debounceRef h); [| assumption]. simpl. now rewrite E.
  - rewrite R. simpl. rewrite E. simpl. now rewrite Pos.eqb_refl.
Qed.

(** What every update does, whatever its length. *)
Lemma typed_always q h :
  searchQuery (handleSetSearchQuery opts q h) = q
  /\ searchError (handleSetSearchQuery opts q h) = None
  /\ fired (handleSetSearchQuery opts q h) = fired h
  /\ clock (loop (handleSetSearchQuery opts q h)) = clock (loop h).
Proof.
  unfold handleSetSearchQuery, updateDebouncedQuery.
  destruct (minSearchLength opts <=? Text.len q); [| now cbn].
  cbn. destruct (debounceRef h); now cbn.
Qed.

(** An update of sufficient length replaces the live timer by a new one. *)
Lemma typed_long q h :
  one_timer h ->
  minSearchLength opts <= Text.len q ->
  armed (handleSetSearchQuery opts q h) q (timer_delay (debounceMs opts))
  /\ debouncedQuery (handleSetSearchQuery opts q h) = debouncedQuery h.
Proof.
  intros Hinv Hlen. apply Z.leb_le in Hlen.
  unfold handleSetSearchQuery. rewrite Hlen.
  unfold updateDebouncedQuery, armed.
  pose proof (cancel_own_timer Hinv) as Hc. cbn.
  destruct (debounceRef h) as [i|]; cbn in *; rewrite Hc; cbn;
    (split; [eexists; repeat split; reflexivity | reflexivity]).
Qed.

(** A shorter update empties the debounced query and leaves the timers
    as they are. *)
Lemma typed_short q h :
  Text.len q < minSearchLength opts ->
  debouncedQuery (handleSetSearchQuery opts q h) = ""
  /\ loop (handleSetSearchQuery opts q h) = loop h
  /\ debounceRef (handleSetSearchQuery opts q h) = debounceRef h.
Proof.
  intros Hlen. unfold handleSetSearchQuery.
  destruct (minSearchLength opts <=? Text.len q) eqn:E;
    [apply Z.leb_le in E; lia | now cbn].
Qed.

Lemma elapse_idle dt h :
  pending (loop h) = [] ->
  pending (loop (elapse dt h)) = []
  /\ fired (elapse dt h) = fired h
  /\ debounceRef (elapse dt h) = debounceRef h.
Proof. intros E. unfold elapse. rewrite E. now cbn. Qed.

(** Before the timer is due nothing fires. *)
Lemma elapse_early dt h q k :
  armed h q k -> 0 <= dt < k ->
  armed (elapse dt h) q (k - dt)
  /\ fired (elapse dt h) = fired h
  /\ debouncedQuery (elapse dt h) = debouncedQuery h
  /\ searchQuery (elapse dt h) = searchQuery h.
Proof.
  intros (t & E & R & Q & D) Hdt. unfold elapse, armed. rewrite E. cbn.
  unfold is_due. rewrite D.
  replace (clock (loop h) + k <=? clock (loop h) + Z.max 0 dt) with false
    by (symmetry; apply Z.leb_gt; lia).
  cbn. repeat split; try reflexivity.
  exists t. repeat split; try assumption. cbn. lia.
Qed.


Lemma one_timer_step h e : one_timer h -> one_timer (step opts h e).
Proof.
  intros Hinv. destruct e as [q|dt|]; simpl.
  - destruct (Z.le_gt_cases (minSearchLength opts) (Text.len q)) as [Hl|Hl].
    + exact (armed_one_timer (proj1 (@typed_long q h Hinv Hl))).
    + assert (Hs : Text.len q < minSearchLength opts) by lia.
      destruct (@typed_short q h Hs) as (_ & El & Er).
      unfold one_timer. now rewrite El, Er.
  - destruct Hinv as [E|(t & E & R)].
    + left. now apply elapse_idle.
    + unfold elapse, one_timer. rewrite E. cbn.
      destruct (is_due _ t); cbn; [now left |].
      right. exists t. now split.
  - unfold clearResults. cbn.
    pose proof (cancel_own_timer Hinv) as Hc.
    destruct (debounceRef h); left; exact Hc.
Qed.

Lemma one_timer_run es : forall h, one_timer h -> one_timer (run opts es h).
Proof.
  induction es as [|e es IH]; intros h Hinv; [assumption |].
  simpl. apply IH. now apply one_timer_step.
Qed.

Lemma one_timer_init : one_timer init.
Proof. now left. Qed.






End Facts.
End HookFacts.

Module HookClaims.
Import Timers UseLocationSearch HookFacts Vocabulary.

Section Burst.
Variable opts : Options.


End Burst.



(** C1 on the code. The update to [abc] starts a timer; the update to
    [ab], 50 later and below the minimum length, empties the debounced
    query but leaves that timer pending; when it comes due it commits
    [abc] although the query text is [ab]. *)
Theorem short_update_keeps_timer :
  let h := run defaults [Typed "abc"; Elapsed 50; Typed "ab"] init in
  let h' := elapse 250 h in
  (searchQuery h = "ab" /\ searchError h = None /\ debouncedQuery h = "")
  /\ map timer_query (pending (loop h)) = ["abc"]
  /\ (searchQuery h' = "ab" /\ debouncedQuery h' = "abc"
      /\ fired h' = ["abc"]).
Proof. cbn. repeat split. Qed.

End HookClaims.

(** ** The query function and the manual search of the hook *)

Module ManualSearchFacts.
Import EffOps GeocodingService UseLocationSearch.

(** With a count as its bound, [slice(0, n)] keeps the first [n]. *)
Lemma slice0_firstn {A} n (l : list A) :
  0 <= n -> slice0 n l = firstn (Z.to_nat n) l.
Proof.
  intros Hn. unfold slice0.
  destruct (n <? 0) eqn:E; [apply Z.ltb_lt in E; lia |].
  destruct (Z.le_ge_cases n (Z.of_nat (List.length l))) as [Hle|Hge].
  - now rewrite Z.min_l.
  - rewrite Z.min_r, Nat2Z.id by assumption.
    rewrite firstn_all. symmetry. apply firstn_all2. lia.
Qed.

Lemma slice0_length {A} n (l : list A) :
  0 <= n -> Z.of_nat (List.length (slice0 n l)) <= n.
Proof.
  intros Hn. rewrite slice0_firstn by assumption.
  rewrite length_firstn. lia.
Qed.

(** An invalid answer always carries a message, and never an empty one. *)
Lemma invalid_has_message input :
  isValid (validateLocationInput input) = false ->
  exists m, error (validateLocationInput input) = Some m
            /\ Text.truthy m = true.
Proof.
  unfold validateLocationInput. destruct input as [s|].
  - destruct (negb (Text.truthy s)).
    { intros _. eexists; split; reflexivity. }
    destruct (Text.len (Text.trim s) <? 2).
    { intros _. eexists; split; reflexivity. }
    destruct (Text.len (Text.trim s) >? 100).
    { intros _. eexists; split; reflexivity. }
    destruct (existsb _ _).
    { intros _. eexists; split; reflexivity. }
    discriminate.
  - intros _. eexists; split; reflexivity.
Qed.

Section QueryFn.
Context `{JsNumbers}.
Variable opts : Options.

(** The query function hands the committed text to [getSuggestions] and
    cuts the list; it never throws, so the query never reports an error. *)
Lemma queryFn_enabled {S} q (net : Net.Network) (st : S) :
  minSearchLength opts <= Text.len q -> Text.truthy q = true ->
  queryFn opts q net st
  = (match result_of (getSuggestions q net st) with
     | Ok l => Ok (slice0 (maxResults opts) l)
     | Throw _ => Ok []
     end,
     state_of (getSuggestions q net st),
     requests_of (getSuggestions q net st)).
Proof.
  intros Hlen Hq. unfold queryFn. rewrite Hq.
  replace (Text.len q <? minSearchLength opts) with false
    by (symmetry; apply Z.ltb_ge; assumption).
  cbn [negb orb]. unfold try_catch, bind, ret.
  destruct (getSuggestions q net st) as [[[l|e] st'] log]; cbn -[slice0];
    now rewrite ?app_nil_r.
Qed.

Lemma queryFn_never_throws {S} q (net : Net.Network) (st : S) :
  exists l, result_of (queryFn opts q net st) = Ok l.
Proof.
  unfold queryFn.
  destruct (negb (Text.truthy q) || (Text.len q <? minSearchLength opts)).
  - eexists; reflexivity.
  - unfold try_catch, bind, ret.
    destruct (getSuggestions q net st) as [[[l|e] st'] log]; cbn -[slice0];
      eexists; reflexivity.
Qed.

End QueryFn.

End ManualSearchFacts.

Module ManualSearchClaims.
Import EffOps GeocodingService UseLocationSearch ManualSearchFacts Vocabulary.

Section Claims.
Context `{JsNumbers}.
Variable opts : Options.

(** C8. With a count as the configured maximum, [manualSearch] first
    validates its input. On invalid input it throws an [INVALID_INPUT]
    error with the message of the validation, that error is what
    [searchError] holds afterwards, and nothing is requested. On valid
    input it makes the requests of [geocodeLocation] on that input (not
    those of [getSuggestions]); a list that comes back is cut to the
    first [maxResults] entries and [searchError] is empty afterwards; a
    failure that comes back is what [searchError] holds afterwards and is
    thrown on to the caller. The rest of the hook is left alone. *)
Theorem manual_search query (net : Net.Network) (h : Hook) :
  0 <= maxResults opts ->
  let out := manualSearch opts query net h in
  let found := geocodeLocation query net h in
  (isValid (validateLocationInput (Some query)) = false ->
     exists m,
       error (validateLocationInput (Some query)) = Some m
       /\ result_of out
          = Throw (GeoError {| message := m; code := INVALID_INPUT |})
       /\ searchError (state_of out)
          = Some (GeoError {| message := m; code := INVALID_INPUT |})
       /\ requests_of out = [])
  /\ (isValid (validateLocationInput (Some query)) = true ->
        requests_of out = requests_of found
        /\ (forall l, result_of found = Ok l ->
              result_of out = Ok (firstn (Z.to_nat (maxResults opts)) l)
              /\ searchError (state_of out) = None)
        /\ (forall e, result_of found = Throw e ->
              result_of out = Throw e
              /\ searchError (state_of out) = Some e))
  /\ (searchQuery (state_of out) = searchQuery h
      /\ debouncedQuery (state_of out) = debouncedQuery h
      /\ debounceRef (state_of out) = debounceRef h
      /\ loop (state_of out) = loop h
      /\ fired (state_of out) = fired h).
Proof.
  intros Hmax out found. subst out found. split; [| split].
  - intros Hv. destruct (invalid_has_message _ Hv) as (m & Em & Hm).
    exists m. split; [assumption |].
    unfold manualSearch, bind, try_catch, modify, throw.
    rewrite Hv, Em. cbn.
    destruct m; [discriminate |]. cbn. repeat split.
  - intros Hv.
    pose proof (ServiceFacts.geocodeLocation_state
                  query net (setSearchError None h)) as E1.
    pose proof (ServiceFacts.geocodeLocation_state query net h) as E2.
    unfold manualSearch, bind, try_catch, modify, ret, throw.
    rewrite Hv. cbn -[slice0 geocodeLocation]. rewrite E1, E2.
    destruct (geocodeLocation query net tt) as [[[l|e] u] log];
      cbn -[slice0].
    + split; [now rewrite app_nil_r |]. split.
      * intros ? [= <-]. now rewrite slice0_firstn.
      * intros ? [=].
    + split; [now rewrite app_nil_r |]. split.
      * intros ? [=].
      * intros ? [= <-]. now split.
  - pose proof (ServiceFacts.geocodeLocation_state
                  query net (setSearchError None h)) as E1.
    unfold manualSearch, bind, try_catch, modify, ret, throw.
    destruct (isValid (validateLocationInput (Some query)));
      cbn -[slice0 geocodeLocation].
    + rewrite E1.
      destruct (geocodeLocation query net tt) as [[[l|e] u] log];
        cbn -[slice0]; now repeat split.
    + now repeat split.
Qed.

End Claims.
End ManualSearchClaims.

(** ** The saved-location toggle *)

Module ToggleFacts.
Import LocationSearch.

Section Facts.
Context `{JsNumbers}.

Lemma same_id_refl (a : Location) : same_id a a = true.
Proof. unfold same_id. apply String.eqb_refl. Qed.

(** Filtering out an identifier nobody has changes nothing. *)
Lemma filter_absent (location : Location) l :
  existsb (fun saved => same_id saved location) l = false ->
  filter (fun saved => negb (same_id saved location)) l = l.
Proof.
  induction l as [|a l IH]; simpl; [reflexivity |].
  intros E. apply orb_false_iff in E. destruct E as [Ea El].
  rewrite Ea. simpl. now rewrite IH.
Qed.

(** After filtering an identifier out, nobody has it. *)
Lemma filter_removes (location : Location) l :
  existsb (fun saved => same_id saved location)
    (filter (fun saved => negb (same_id saved location)) l) = false.
Proof.
  induction l as [|a l IH]; simpl; [reflexivity |].
  destruct (same_id a location) eqn:Ea; simpl; [assumption |].
  now rewrite Ea.
Qed.

Lemma toggle_unsaved location s :
  isLocationSaved s location = false ->
  savedLocations (toggleSavedLocation location s)
  = (savedLocations s ++ [location])%list.
Proof.
  unfold isLocationSaved, toggleSavedLocation. intros E. now rewrite E.
Qed.

Lemma toggle_saved location s :
  isLocationSaved s location = true ->
  savedLocations (toggleSavedLocation location s)
  = filter (fun saved => negb (same_id saved location)) (savedLocations s).
Proof.
  unfold isLocationSaved, toggleSavedLocation. intros E. now rewrite E.
Qed.

End Facts.
End ToggleFacts.

Module ToggleClaims.
Import LocationSearch ToggleFacts.

Section Claims.
Context `{JsNumbers}.

(** C2, as the code has it. Two toggles of a place in a row give back
    the saved list, contents and order, when no saved entry had the
    identifier of the place. When some entry had it, they leave the list
    without the entries of that identifier and with the place appended
    at the end. Either way the list written to storage is the list in
    state. *)
Theorem toggle_twice location s :
  let s2 := toggleSavedLocation location (toggleSavedLocation location s) in
  savedLocations s2
  = (if isLocationSaved s location
     then (filter (fun saved => negb (same_id saved location))
             (savedLocations s) ++ [location])%list
     else savedLocations s)
  /\ stored s2 = Some (savedLocations s2).
Proof.
  intros s2. subst s2. split.
  2:{ unfold toggleSavedLocation at 1 3.
      now destruct (existsb _ (savedLocations _)). }
  destruct (isLocationSaved s location) eqn:E.
  - rewrite toggle_unsaved.
    + now rewrite toggle_saved.
    + unfold isLocationSaved. rewrite toggle_saved by assumption.
      apply filter_removes.
  - rewrite toggle_saved.
    + rewrite toggle_unsaved by assumption.
      rewrite filter_app. simpl. rewrite same_id_refl. simpl.
      rewrite app_nil_r. now apply filter_absent.
    + unfold isLocationSaved. rewrite toggle_unsaved by assumption.
      rewrite existsb_app. simpl. rewrite same_id_refl.
      now rewrite orb_true_r.
Qed.

End Claims.

(** C2, as stated, fails: with Paris and Monaco saved in that order, two
    toggles of Paris leave Monaco first and Paris last. *)
Lemma toggle_twice_moves_saved_place :
  isLocationSaved Samples.saved_both Samples.paris_location = true
  /\ savedLocations
       (toggleSavedLocation Samples.paris_location
          (toggleSavedLocation Samples.paris_location Samples.saved_both))
     = [Samples.monaco_location; Samples.paris_location]
  /\ savedLocations
       (toggleSavedLocation Samples.paris_location
          (toggleSavedLocation Samples.paris_location Samples.saved_both))
     <> savedLocations Samples.saved_both.
Proof. repeat split. discriminate. Qed.

End ToggleClaims.

(** ** The statements run on sample inputs *)

Module Witnesses.
Import EffOps GeocodingService UseLocationSearch Vocabulary.
Import IntegerNumbers Samples.
Import ServiceClaims ValidationClaims ManualSearchClaims.

Example search_paris :
  let found := search "  Paris " (answers [paris; singapore; monaco]) in
  ids (result_of found) = ["49-2"; "1-104"; "44-7"]
  /\ addresses (result_of found)
     = [Some "Paris, Ile-de-France, France"; Some "Singapore, Singapore";
        Some "Monaco, Monaco"]
  /\ requests_of found
     = ["https://api.weatherapi.com/v1/search.json?key=YOUR_API_KEY&q=Paris"].
Proof. repeat split. Qed.

Example search_nowhere :
  search "Zzzznotaplace" (answers [])
  = (Throw (ReferenceError "GeocodingError"), tt, [url_of "Zzzznotaplace"]).
Proof. reflexivity. Qed.

Lemma suggestions_never_fail_witness :
  (Text.len "ab" < 3
   /\ result_of (suggest "ab" offline) = Ok []
   /\ requests_of (suggest "ab" offline) = [])
  /\ (3 <= Text.len "Paris"
      /\ result_of (search "Paris" offline)
         = Throw (ReferenceError "GeocodingError")
      /\ result_of (suggest "Paris" offline) = Ok []).
Proof.
  assert (H2 : Text.len "ab" < 3) by reflexivity.
  assert (H5 : 3 <= Text.len "Paris") by discriminate.
  split.
  - split; [exact H2 |].
    exact (proj1 (proj2 (@suggestions_never_fail integers unit "ab" offline tt))
             H2).
  - split; [exact H5 |]. split; [reflexivity |].
    exact (proj2 (proj2 (proj2 (proj2
             (@suggestions_never_fail integers unit "Paris" offline tt)) H5))
             (ReferenceError "GeocodingError") eq_refl).
Defined.

Lemma success_maps_records_witness :
  result_of (search "Paris" (answers [paris; singapore])) 
  = Ok (map to_result [paris; singapore])
  /\ exists r records,
       answers [paris; singapore] (url_of "Paris") = Net.FetchResponse r
       /\ Net.body r = Net.BodyArray records
       /\ map to_result [paris; singapore] = map to_result records
       /\ Forall2
            (fun rec p =>
               (exists latitude longitude,
                  raw_text (Net.r_lat rec) latitude
                  /\ raw_text (Net.r_lon rec) longitude
                  /\ id p = (latitude ++ "-" ++ longitude)%string)
               /\ (forall reg, Net.r_region rec = Some reg -> reg <> "" ->
                     formatted_address p
                     = Some (Net.r_name rec ++ ", " ++ reg ++ ", "
                             ++ Net.r_country rec)%string)
               /\ (Net.r_region rec = None \/ Net.r_region rec = Some "" ->
                     formatted_address p
                     = Some (Net.r_name rec ++ ", "
                             ++ Net.r_country rec)%string))
            records (map to_result [paris; singapore]).
Proof.
  assert (Hr : result_of (search "Paris" (answers [paris; singapore]))
               = Ok (map to_result [paris; singapore])) by reflexivity.
  split; [exact Hr |].
  exact (@success_maps_records integers unit "Paris"
           (answers [paris; singapore]) tt
           (map to_result [paris; singapore]) Hr).
Defined.


Lemma manual_search_witness :
  0 <= maxResults defaults
  /\ (isValid (validateLocationInput (Some "a")) = false
      /\ exists m,
           error (validateLocationInput (Some "a")) = Some m
           /\ result_of (manual "a" offline)
              = Throw (GeoError {| message := m; code := INVALID_INPUT |})
           /\ searchError (state_of (manual "a" offline))
              = Some (GeoError {| message := m; code := INVALID_INPUT |})
           /\ requests_of (manual "a" offline) = [])
  /\ (isValid (validateLocationInput (Some "Paris")) = true
      /\ result_of (search "Paris" offline)
         = Throw (ReferenceError "GeocodingError")
      /\ result_of (manual "Paris" offline)
         = Throw (ReferenceError "GeocodingError")
      /\ searchError (state_of (manual "Paris" offline))
         = Some (ReferenceError "GeocodingError")).
Proof.
  assert (Hmax : 0 <= maxResults defaults) by discriminate.
  split; [exact Hmax |]. split.
  - split; [reflexivity |].
    exact (proj1 (@manual_search integers defaults "a" offline init Hmax)
             eq_refl).
  - split; [reflexivity |]. split; [reflexivity |].
    exact (proj2 (proj2 (proj1 (proj2 (@manual_search integers defaults "Paris"
                                         offline init Hmax)) eq_refl))
             (ReferenceError "GeocodingError") eq_refl).
Defined.

End Witnesses.

(* ===================================================================== *)
(** * Further properties of the code *)
(* ===================================================================== *)

(** ** Trimming and encoding *)

Module MoreTextFacts.
Import Text TextFacts TrimFacts Vocabulary MoreVocabulary.

Lemma chars_append (a b : string) :
  list_ascii_of_string (a ++ b)
  = (list_ascii_of_string a ++ list_ascii_of_string b)%list.
Proof. induction a as [|x a IH]; simpl; [reflexivity | now rewrite IH]. Qed.

Lemma trimEnd_idem s : trimEnd (trimEnd s) = trimEnd s.
Proof.
  induction s as [|c s IH]; simpl; [reflexivity |].
  destruct (trimEnd s) as [|d t] eqn:Et.
  - destruct (is_white_space c) eqn:Hc; simpl; [reflexivity |].
    now rewrite Hc.
  - change (trimEnd (String c (String d t)))
      with (match trimEnd (String d t) with
            | EmptyString =>
                if is_white_space c then EmptyString else String c EmptyString
            | String x u => String c (String x u)
            end).
    now rewrite IH.
Qed.

(** [trimEnd] keeps the first character of what it leaves. *)
Lemma trimEnd_head c s :
  trimEnd (String c s) = EmptyString
  \/ exists t, trimEnd (String c s) = String c t.
Proof.
  simpl. destruct (trimEnd s) as [|d t].
  - destruct (is_white_space c); [now left | right; now exists EmptyString].
  - right. now exists (String d t).
Qed.

Lemma trimStart_head s :
  trimStart s = EmptyString
  \/ exists c t, trimStart s = String c t /\ is_white_space c = false.
Proof.
  induction s as [|c s IH]; simpl; [now left |].
  destruct (is_white_space c) eqn:Hc; [exact IH |].
  right. now exists c, s.
Qed.

Lemma trimStart_solid c t :
  is_white_space c = false -> trimStart (String c t) = String c t.
Proof. intros Hc. simpl. now rewrite Hc. Qed.

Theorem trim_idem s : trim (trim s) = trim s.
Proof.
  unfold trim.
  destruct (trimStart_head s) as [E|(c & t & E & Hc)]; rewrite E.
  - reflexivity.
  - destruct (trimEnd_head c t) as [E'|(u & E')]; rewrite E'.
    + reflexivity.
    + rewrite (@trimStart_solid c u Hc), <- E'. apply trimEnd_idem.
Qed.

Lemma hex_digit_unreserved n :
  (n < 16)%N -> is_unreserved (hex_digit n) = true.
Proof.
  intros Hn.
  assert (Hcases : In n (map N.of_nat (seq 0 16))).
  { apply in_map_iff. exists (N.to_nat n). split; [apply N2Nat.id |].
    apply in_seq. lia. }
  simpl in Hcases.
  repeat (destruct Hcases as [<-|Hcases]; [reflexivity |]).
  destruct Hcases.
Qed.

Lemma percent_encoded byte :
  (byte < 256)%N ->
  Forall encoded_char (list_ascii_of_string (percent byte)).
Proof.
  intros Hb. unfold percent. simpl.
  constructor; [now right |].
  constructor.
  { left. apply hex_digit_unreserved.
    apply N.Div0.div_lt_upper_bound. lia. }
  constructor; [| constructor].
  left. apply hex_digit_unreserved. apply N.mod_lt. discriminate.
Qed.

Lemma code_bound c : (code c < 256)%N.
Proof. unfold code. apply N_ascii_bounded. Qed.

Lemma encode_unit_encoded c :
  Forall encoded_char (list_ascii_of_string (encode_unit c)).
Proof.
  unfold encode_unit. pose proof (code_bound c) as Hc.
  destruct (is_unreserved c) eqn:Hu.
  - simpl. constructor; [now left | constructor].
  - destruct (code c <? 128)%N eqn:Hlt.
    + apply percent_encoded. assumption.
    + rewrite chars_append. apply Forall_app. split; apply percent_encoded.
      * assert (code c / 64 < 4)%N
          by (apply N.Div0.div_lt_upper_bound; lia).
        lia.
      * assert (code c mod 64 < 64)%N by (apply N.mod_lt; discriminate).
        lia.
Qed.

End MoreTextFacts.

(** ** More on the geocoding service *)

Module ServiceExtras.
Import EffOps GeocodingService ServiceFacts ValidationFacts.
Import Vocabulary MoreVocabulary MoreTextFacts.

(** X1. The query a search puts into its URL consists of unreserved
    characters and percent signs only, so no text can add a parameter or a
    fragment to the request. *)
Theorem search_url_is_encoded q :
  exists e,
    search_url q
    = ("https://api.weatherapi.com/v1/search.json?key=YOUR_API_KEY&q=" ++ e)%string
    /\ Forall encoded_char (list_ascii_of_string e).
Proof.
  exists (Text.encodeURIComponent q). split; [reflexivity |].
  induction q as [|c q IH]; simpl; [constructor |].
  rewrite chars_append. apply Forall_app. split; [| exact IH].
  apply encode_unit_encoded.
Qed.

(** X2. Validation does not depend on white space around the text: a text
    and its trimmed form are both valid or both invalid. *)
Theorem validation_ignores_surrounding_space s :
  isValid (validateLocationInput (Some s))
  = isValid (validateLocationInput (Some (Text.trim s))).
Proof.
  assert (Hd : dangerous s <-> dangerous (Text.trim s)).
  { rewrite <- (patterns_dangerous s), <- (patterns_dangerous (Text.trim s)).
    now rewrite trim_idem. }
  pose proof (validate_decides s) as H1.
  pose proof (validate_decides (Text.trim s)) as H2.
  rewrite trim_idem in H2.
  destruct (isValid (validateLocationInput (Some s))) eqn:E1;
    destruct (isValid (validateLocationInput (Some (Text.trim s)))) eqn:E2;
    try reflexivity; exfalso.
  - assert (Hf : true = false); [| discriminate].
    apply H1. destruct (proj1 H2 eq_refl) as [Hc|[Hc|Hc]]; auto.
    right; right. now apply Hd.
  - assert (Hf : true = false); [| discriminate].
    apply H2. destruct (proj1 H1 eq_refl) as [Hc|[Hc|Hc]]; auto.
    right; right. now apply Hd.
Qed.

Section Search.
Context `{JsNumbers}.
Implicit Types (net : Net.Network) (s : string).

(** X3. A search does not depend on white space around the text: the
    result, the state and the requests are those of the trimmed text. *)
Theorem search_ignores_surrounding_space {S} s net (st : S) :
  geocodeLocation s net st = geocodeLocation (Text.trim s) net st.
Proof.
  unfold geocodeLocation. rewrite !guard_short, trim_idem. reflexivity.
Qed.

(** X4. A search makes no request when the text has fewer than two
    characters after trimming, and otherwise exactly one, to the URL of the
    trimmed and encoded text, whatever the outcome. *)
Theorem search_requests {S} s net (st : S) :
  requests_of (geocodeLocation s net st)
  = if Text.len (Text.trim s) <? 2 then [] else [url_of s].
Proof.
  destruct (Z.lt_ge_cases (Text.len (Text.trim s)) 2) as [Hs|Hs].
  - rewrite geocodeLocation_short by assumption.
    apply Z.ltb_lt in Hs. now rewrite Hs.
  - replace (Text.len (Text.trim s) <? 2) with false
      by (symmetry; now apply Z.ltb_ge).
    destruct (net (url_of s)) as [|r] eqn:Hn.
    + now rewrite geocodeLocation_rejected.
    + destruct (Net.ok r) eqn:Hok.
      * now rewrite (@geocodeLocation_ok _ _ s net st r Hs Hn Hok).
      * now rewrite (@geocodeLocation_not_ok _ _ s net st r Hs Hn Hok).
Qed.

(** X5. A search returns a list exactly when the text keeps two characters
    after trimming and the request is answered with a status from 200 to
    299 and an array that is not empty. In every other case it fails, and
    always with the [ReferenceError] of the name [GeocodingError]: no
    failure of a search carries a message or a code. *)
Theorem search_outcomes {S} s net (st : S) :
  ((exists places, result_of (geocodeLocation s net st) = Ok places)
   <-> 2 <= Text.len (Text.trim s)
       /\ exists r x rs,
            net (url_of s) = Net.FetchResponse r
            /\ Net.ok r = true
            /\ Net.body r = Net.BodyArray (x :: rs))
  /\ (forall e, result_of (geocodeLocation s net st) = Throw e ->
        e = ReferenceError "GeocodingError")
  /\ (forall g, result_of (geocodeLocation s net st) <> Throw (GeoError g)).
Proof.
  split; [split |].
  - intros (places & Hr).
    destruct (geocodeLocation_returns s net st Hr)
      as (Hs & r & x & rs & Hn & Hok & Hb & _).
    split; [assumption |]. now exists r, x, rs.
  - intros (Hs & r & x & rs & Hn & Hok & Hb).
    rewrite (@geocodeLocation_ok _ _ s net st r Hs Hn Hok), Hb.
    eexists. reflexivity.
  - split.
    + intros e He. exact (geocodeLocation_throws s net st He).
    + intros g Hg. apply geocodeLocation_throws in Hg. discriminate Hg.
Qed.

(** X6. A search that succeeds never returns the empty list: there is
    always a first result. *)
Theorem search_success_nonempty {S} s net (st : S) places :
  result_of (geocodeLocation s net st) = Ok places ->
  exists first rest, places = first :: rest.
Proof.
  destruct (Z.lt_ge_cases (Text.len (Text.trim s)) 2) as [Hs|Hs].
  { rewrite geocodeLocation_short by assumption. discriminate. }
  destruct (net (url_of s)) as [|r] eqn:Hn.
  { rewrite geocodeLocation_rejected by assumption. discriminate. }
  destruct (Net.ok r) eqn:Hok.
  2:{ rewrite (@geocodeLocation_not_ok _ _ s net st r Hs Hn Hok). discriminate. }
  rewrite (@geocodeLocation_ok _ _ s net st r Hs Hn Hok). cbn.
  destruct (Net.body r) as [| |[|x rs]]; try discriminate.
  intros [= <-]. now exists (to_result x), (map to_result rs).
Qed.

(** X9. Suggestions make no request when the text is shorter than 3 or has
    fewer than two characters after trimming, and exactly one otherwise. *)
Theorem suggestion_requests {S} s net (st : S) :
  requests_of (getSuggestions s net st)
  = if (Text.len s <? 3) || (Text.len (Text.trim s) <? 2)
    then [] else [url_of s].
Proof.
  unfold getSuggestions. destruct (Text.len s <? 3); [reflexivity |].
  cbn [orb]. unfold try_catch.
  destruct (Z.lt_ge_cases (Text.len (Text.trim s)) 2) as [Hs|Hs].
  - rewrite geocodeLocation_short by assumption.
    apply Z.ltb_lt in Hs. now rewrite Hs.
  - replace (Text.len (Text.trim s) <? 2) with false
      by (symmetry; now apply Z.ltb_ge).
    destruct (net (url_of s)) as [|r] eqn:Hn.
    + now rewrite geocodeLocation_rejected.
    + destruct (Net.ok r) eqn:Hok.
      * rewrite (@geocodeLocation_ok _ _ s net st r Hs Hn Hok).
        destruct (Net.body r) as [| |[|x rs]]; reflexivity.
      * now rewrite (@geocodeLocation_not_ok _ _ s net st r Hs Hn Hok).
Qed.

End Search.
End ServiceExtras.

(** ** Manual location entry *)

Module ManualEntryFacts.
Import EffOps GeocodingService ServiceFacts ManualSearchFacts ManualEntry.
Import Vocabulary MoreVocabulary.

Section Facts.
Context `{JsNumbers} {S : Type}.
Variable toast : ToastKind -> string -> S -> S.
Variable onSuccess : GeocodingResult -> S -> S.
Variable onError : option (GeocodingError -> S -> S).

(** A list that comes back from a search has a first entry. *)
Lemma found_has_first s (net : Net.Network) places :
  result_of (geocodeLocation s net tt) = Ok places ->
  exists first rest, places = first :: rest.
Proof.
  intros Hr.
  destruct (geocodeLocation_returns s net tt Hr)
    as (_ & r & x & rs & _ & _ & _ & ->).
  now exists (to_result x), (map to_result rs).
Qed.

(** The entry on invalid input: the error it means to show and to report
    is never built. *)
Lemma entry_invalid s (net : Net.Network) (st : S) :
  isValid (validateLocationInput (Some s)) = false ->
  handleManualLocationEntry toast onSuccess onError s net st
  = (Throw not_defined, st, []).
Proof.
  intros Hv. unfold handleManualLocationEntry, try_catch, bind.
  rewrite Hv. reflexivity.
Qed.

(** The entry on valid input, by the outcome of the search. *)
Lemma entry_valid s (net : Net.Network) (st : S) :
  isValid (validateLocationInput (Some s)) = true ->
  let searching := toast ToastInfo "Searching for location..." st in
  handleManualLocationEntry toast onSuccess onError s net st
  = (match result_of (geocodeLocation s net tt) with
     | Ok (location :: _) => Ok tt
     | _ => Throw not_defined
     end,
     match result_of (geocodeLocation s net tt) with
     | Ok (location :: _) =>
         onSuccess location
           (toast ToastSuccess
              ("Found: " ++ template_text (formatted_address location))
              searching)
     | _ => searching
     end,
     requests_of (geocodeLocation s net tt)).
Proof.
  intros Hv searching.
  pose proof (geocodeLocation_state s net searching) as E.
  unfold handleManualLocationEntry, try_catch, bind, modify.
  rewrite Hv. cbn [negb]. cbn -[geocodeLocation].
  fold searching. rewrite E.
  destruct (geocodeLocation s net tt) as [[[l|e] u] log]; cbn.
  - destruct l as [|location rest]; cbn; now rewrite !app_nil_r.
  - now rewrite !app_nil_r.
Qed.

End Facts.
End ManualEntryFacts.

Module ManualEntryExtras.
Import EffOps GeocodingService ServiceFacts ManualSearchFacts ManualEntry.
Import ManualEntryFacts Vocabulary MoreVocabulary.

Section Extras.
Context `{JsNumbers} {S : Type}.
Variable toast : ToastKind -> string -> S -> S.
Variable onSuccess : GeocodingResult -> S -> S.
Variable onError : option (GeocodingError -> S -> S).

(** X7. Manual entry never calls [onError]: whatever callback it is given,
    or none, the result, the state it leaves and the requests are the
    same. *)
Theorem on_error_is_never_called other s (net : Net.Network) (st : S) :
  handleManualLocationEntry toast onSuccess other s net st
  = handleManualLocationEntry toast onSuccess onError s net st.
Proof.
  destruct (isValid (validateLocationInput (Some s))) eqn:Hv.
  - now rewrite !(entry_valid toast onSuccess _ s net st Hv).
  - now rewrite !(entry_invalid toast onSuccess _ s net st Hv).
Qed.

(** X10. Manual entry completes exactly when the input passes validation
    and the search returns a list. In every other case it fails, with the
    [ReferenceError] of the name [GeocodingError]: the failure is not
    caught inside. It contacts the network only for input that passes
    validation, and then makes the requests of the search. *)
Theorem manual_entry_outcomes s (net : Net.Network) (st : S) :
  let out := handleManualLocationEntry toast onSuccess onError s net st in
  (result_of out = Ok tt
   <-> isValid (validateLocationInput (Some s)) = true
       /\ exists places, result_of (geocodeLocation s net st) = Ok places)
  /\ (forall e, result_of out = Throw e -> e = ReferenceError "GeocodingError")
  /\ requests_of out
     = if isValid (validateLocationInput (Some s))
       then requests_of (geocodeLocation s net st) else [].
Proof.
  intros out. subst out.
  rewrite (geocodeLocation_state s net st).
  change (result_of (result_of (geocodeLocation s net tt), st,
                     requests_of (geocodeLocation s net tt)))
    with (result_of (geocodeLocation s net tt)).
  change (requests_of (result_of (geocodeLocation s net tt), st,
                       requests_of (geocodeLocation s net tt)))
    with (requests_of (geocodeLocation s net tt)).
  destruct (isValid (validateLocationInput (Some s))) eqn:Hv.
  - rewrite (entry_valid toast onSuccess onError s net st Hv).
    destruct (result_of (geocodeLocation s net tt)) as [[|x l]|e] eqn:Hr; cbn.
    + destruct (found_has_first s net Hr) as (? & ? & [=]).
    + split; [| split; [intros ? [=] | reflexivity]].
      split; [intros _; split; [reflexivity | now eexists] | reflexivity].
    + split; [| split; [now intros ? [= <-] | reflexivity]].
      split; [discriminate | intros (_ & ? & [=])].
  - rewrite (entry_invalid toast onSuccess onError s net st Hv). cbn.
    split; [| split; [now intros ? [= <-] | reflexivity]].
    split; [discriminate | intros ([=] & _)].
Qed.

(** X11. On input that fails validation, manual entry fails with the
    [ReferenceError] and has done nothing by then: no toast, no call of
    [onError] or [onSuccess], no request. *)
Theorem manual_entry_invalid s (net : Net.Network) (st : S) :
  isValid (validateLocationInput (Some s)) = false ->
  handleManualLocationEntry toast onSuccess onError s net st
  = (Throw (ReferenceError "GeocodingError"), st, []).
Proof. apply entry_invalid. Qed.

(** X12. When the search succeeds, manual entry shows the info toast, then
    a success toast with the formatted address of the first result, and
    hands that first result to [onSuccess]; [onError] is not called. *)
Theorem manual_entry_found s (net : Net.Network) (st : S) places :
  isValid (validateLocationInput (Some s)) = true ->
  result_of (geocodeLocation s net st) = Ok places ->
  exists location rest address,
    places = location :: rest
    /\ formatted_address location = Some address
    /\ state_of (handleManualLocationEntry toast onSuccess onError s net st)
       = onSuccess location
           (toast ToastSuccess ("Found: " ++ address)
              (toast ToastInfo "Searching for location..." st)).
Proof.
  intros Hv Hr. rewrite (geocodeLocation_state s net st) in Hr. cbn in Hr.
  destruct (geocodeLocation_returns s net tt Hr)
    as (_ & r & x & rs & _ & _ & _ & ->).
  exists (to_result x), (map to_result rs). eexists.
  split; [reflexivity |]. split; [reflexivity |].
  rewrite (entry_valid toast onSuccess onError s net st Hv), Hr.
  reflexivity.
Qed.

(** X13. When the search fails, manual entry fails with the
    [ReferenceError]; all it has done by then is to show the info toast
    and to make the requests of the search. No error toast is shown and
    neither callback is called. *)
Theorem manual_entry_failed s (net : Net.Network) (st : S) e :
  isValid (validateLocationInput (Some s)) = true ->
  result_of (geocodeLocation s net st) = Throw e ->
  handleManualLocationEntry toast onSuccess onError s net st
  = (Throw (ReferenceError "GeocodingError"),
     toast ToastInfo "Searching for location..." st,
     requests_of (geocodeLocation s net st)).
Proof.
  intros Hv Hr. rewrite (geocodeLocation_state s net st) in Hr |- *.
  cbn in Hr. rewrite (entry_valid toast onSuccess onError s net st Hv), Hr.
  reflexivity.
Qed.

End Extras.
End ManualEntryExtras.

(** ** More on the search hook *)

Module HookMoreFacts.
Import Timers UseLocationSearch HookFacts Vocabulary MoreVocabulary.

Lemma Forall_enqueue (P : Timer -> Prop) t q :
  P t -> Forall P q -> Forall P (enqueue t q).
Proof.
  intros Ht. induction 1 as [|u q Hu Hq IH]; simpl.
  - now constructor.
  - destruct (timer_due t <? timer_due u); constructor; auto.
Qed.

Lemma Forall_filter (A : Type) (P : A -> Prop) f (l : list A) :
  Forall P l -> Forall P (filter f l).
Proof.
  induction 1 as [|a l Ha Hl IH]; simpl; [constructor |].
  destruct (f a); [constructor |]; assumption.
Qed.

Lemma last_nonempty (A : Type) (l : list A) : forall a d1 d2,
  last (a :: l) d1 = last (a :: l) d2.
Proof.
  induction l as [|b l IH]; intros a d1 d2; [reflexivity |].
  change (last (b :: l) d1 = last (b :: l) d2). apply IH.
Qed.

(** What the callbacks of a run of due timers leave behind. *)
Lemma fire_all due : forall h,
  let h' := fold_left (fun acc t => fire t acc) due h in
  fired h' = (fired h ++ map timer_query due)%list
  /\ debouncedQuery h' = last (map timer_query due) (debouncedQuery h)
  /\ loop h' = loop h /\ searchQuery h' = searchQuery h
  /\ searchError h' = searchError h /\ debounceRef h' = debounceRef h.
Proof.
  induction due as [|t due IH]; intros h; cbn [fold_left map].
  - cbn. rewrite app_nil_r. now repeat split.
  - destruct (IH (fire t h)) as (Hf & Hd & Hl & Hq & He & Hr).
    cbn zeta in *. rewrite Hf, Hd, Hl, Hq, He, Hr. cbn.
    rewrite <- app_assoc. repeat split.
    destruct (map timer_query due) as [|x l]; [reflexivity |].
    change (last (x :: l) (timer_query t) = last (x :: l) (debouncedQuery h)).
    apply last_nonempty.
Qed.

(** With no timer pending, letting time pass changes the clock only. *)
Lemma elapse_idle_state dt h :
  pending (loop h) = [] ->
  pending (loop (elapse dt h)) = []
  /\ fired (elapse dt h) = fired h
  /\ debouncedQuery (elapse dt h) = debouncedQuery h
  /\ searchQuery (elapse dt h) = searchQuery h
  /\ searchError (elapse dt h) = searchError h.
Proof. intros E. unfold elapse. rewrite E. now cbn. Qed.

Section Facts.
Variable opts : Options.

Lemma waits_idle dts : forall h,
  pending (loop h) = [] ->
  let h' := run opts (waits dts) h in
  pending (loop h') = []
  /\ fired h' = fired h
  /\ debouncedQuery h' = debouncedQuery h
  /\ searchQuery h' = searchQuery h
  /\ searchError h' = searchError h.
Proof.
  induction dts as [|dt dts IH]; intros h E; [now repeat split |].
  destruct (elapse_idle_state dt h E) as (Hp & Hf & Hd & Hq & He).
  destruct (IH _ Hp) as (Hp' & Hf' & Hd' & Hq' & He').
  cbn [waits map run fold_left step] in *.
  rewrite <- Hf, <- Hd, <- Hq, <- He. now repeat split.
Qed.

(** [clearResults] from a state with at most its own timer pending. *)
Lemma clear_quiet h :
  one_timer h ->
  searchQuery (clearResults h) = ""
  /\ debouncedQuery (clearResults h) = ""
  /\ searchError (clearResults h) = None
  /\ pending (loop (clearResults h)) = []
  /\ fired (clearResults h) = fired h.
Proof.
  intros Hinv. pose proof (cancel_own_timer Hinv) as Hc.
  unfold clearResults. cbn.
  destruct (debounceRef h); cbn; now repeat split.
Qed.

Lemma last_satisfies (P : string -> Prop) l d :
  Forall P l -> (d = "" \/ P d) -> last l d = "" \/ P (last l d).
Proof.
  intros Hl Hd. induction Hl as [|a l Ha Hl IH]; [assumption |].
  destruct l as [|b l]; [now right |]. exact IH.
Qed.

Lemma texts_step (P : string -> Prop) e h :
  (forall q, e = Typed q -> minSearchLength opts <= Text.len q -> P q) ->
  texts_satisfy P h -> texts_satisfy P (step opts h e).
Proof.
  intros He (Hp & Hf & Hd). destruct e as [q|dt|]; cbn [step].
  - unfold handleSetSearchQuery.
    destruct (minSearchLength opts <=? Text.len q) eqn:Hl.
    + apply Z.leb_le in Hl. specialize (He q eq_refl Hl).
      unfold updateDebouncedQuery, texts_satisfy. cbn.
      destruct (debounceRef h) as [i|]; cbn;
        (split; [| now split]);
        apply Forall_enqueue; try assumption.
      now apply Forall_filter.
    + unfold texts_satisfy. cbn. split; [assumption |]. split; [assumption |].
      now left.
  - unfold elapse.
    set (now := clock (loop h) + Z.max 0 dt).
    set (due := filter (is_due now) (pending (loop h))).
    set (h1 := with_loop _ h).
    destruct (fire_all due h1) as (Ef & Ed & El & _).
    cbn zeta in Ef, Ed, El. unfold texts_satisfy. rewrite Ef, Ed, El.
    assert (Hdue : Forall P (map timer_query due)).
    { apply Forall_map. subst due. now apply Forall_filter. }
    split; [| split].
    + subst h1. cbn. now apply Forall_filter.
    + apply Forall_app. now split.
    + now apply last_satisfies.
  - unfold clearResults, texts_satisfy. cbn.
    destruct (debounceRef h) as [i|]; cbn.
    + split; [now apply Forall_filter |]. split; [assumption | now left].
    + split; [assumption |]. split; [assumption | now left].
Qed.

Lemma texts_run (P : string -> Prop) es : forall h,
  (forall q, In (Typed q) es -> minSearchLength opts <= Text.len q -> P q) ->
  texts_satisfy P h -> texts_satisfy P (run opts es h).
Proof.
  induction es as [|e es IH]; intros h He Hh; [assumption |].
  cbn [run fold_left]. apply IH.
  - intros q Hq. apply He. now right.
  - apply texts_step; [| assumption].
    intros q -> Hl. apply He; [now left | assumption].
Qed.

Lemma texts_init (P : string -> Prop) : texts_satisfy P init.
Proof.
  unfold texts_satisfy. cbn.
  split; [constructor | split; [constructor | now left]].
Qed.

End Facts.
End HookMoreFacts.

Module HookExtras.
Import EffOps GeocodingService Timers UseLocationSearch HookFacts.
Import ManualSearchFacts HookMoreFacts Vocabulary MoreVocabulary.

Section Extras.
Variable opts : Options.

(** X14. After [clearResults], in whatever state the hook was, the query
    text and the debounced query are empty, no failure is recorded and no
    timer is pending; and however long one waits afterwards, no debounced
    commit happens and the debounced query stays empty. *)
Theorem clear_results_is_final es dts :
  let h := clearResults (run opts es init) in
  let later := run opts (waits dts) h in
  (searchQuery h = "" /\ debouncedQuery h = "" /\ searchError h = None
   /\ pending (loop h) = [])
  /\ fired later = fired h
  /\ debouncedQuery later = ""
  /\ searchQuery later = "".
Proof.
  intros h later.
  assert (Hinv : one_timer (run opts es init))
    by apply one_timer_run, one_timer_init.
  destruct (clear_quiet Hinv) as (Hq1 & Hq2 & Hq3 & Hp & _).
  destruct (waits_idle opts dts h Hp) as (_ & Hf & Hd & Hs & _).
  cbn zeta in Hf, Hd, Hs. subst later h.
  repeat split; try assumption; congruence.
Qed.

(** X15. Every text a debounce timer ever commits reaches the minimum
    length and was typed before; and at any time the debounced query is
    either empty or such a text. So the suggestion query is never keyed by
    a text below the minimum length. *)
Theorem committed_texts_are_long es :
  let h := run opts es init in
  Forall (fun q => minSearchLength opts <= Text.len q /\ typed_in es q)
    (fired h)
  /\ (debouncedQuery h = ""
      \/ (minSearchLength opts <= Text.len (debouncedQuery h)
          /\ typed_in es (debouncedQuery h))).
Proof.
  intros h.
  destruct (@texts_run opts
              (fun q => minSearchLength opts <= Text.len q /\ typed_in es q)
              es init) as (_ & Hf & Hd).
  - intros q Hq Hl. now split.
  - apply texts_init.
  - now split.
Qed.

(** X16. A debounced commit never comes early: after an update that
    reaches the minimum length, as long as less than the timer delay has
    passed, nothing is committed and the debounced query is what it was. *)
Theorem no_commit_before_delay es q dt :
  minSearchLength opts <= Text.len q ->
  0 <= dt < timer_delay (debounceMs opts) ->
  let h := run opts es init in
  let h' := run opts [Typed q; Elapsed dt] h in
  fired h' = fired h
  /\ debouncedQuery h' = debouncedQuery h
  /\ searchQuery h' = q
  /\ List.length (pending (loop h')) = 1%nat.
Proof.
  intros Hq Hdt h h'.
  assert (Hinv : one_timer h) by apply one_timer_run, one_timer_init.
  destruct (@typed_long opts q h Hinv Hq) as (Ha & Hd).
  destruct (typed_always opts q h) as (Hs & _ & Hf & _).
  destruct (@elapse_early dt _ q _ Ha Hdt) as (Ha' & Hf' & Hd' & Hs').
  subst h'. cbn [run fold_left step].
  destruct Ha' as (t & Ep & _).
  rewrite Hf', Hd', Hs', Ep. now repeat split.
Qed.

Context `{JsNumbers}.

(** X17. The query function returns the empty list, without a request and
    without a failure, whenever the committed text is empty, below the
    minimum length of the hook, or shorter than 3: a minimum length below
    3 has no effect. *)
Theorem query_fn_short {S} q (net : Net.Network) (st : S) :
  q = "" \/ Text.len q < minSearchLength opts \/ Text.len q < 3 ->
  queryFn opts q net st = (Ok [], st, []).
Proof.
  intros Hq. unfold queryFn.
  destruct (negb (Text.truthy q) || (Text.len q <? minSearchLength opts))
    eqn:Hg; [reflexivity |].
  apply orb_false_iff in Hg. destruct Hg as [Ht Hl].
  apply Z.ltb_ge in Hl. apply negb_false_iff in Ht.
  destruct Hq as [-> | [Hc | Hc]]; [discriminate | lia |].
  unfold try_catch, bind, ret, getSuggestions.
  apply Z.ltb_lt in Hc. rewrite Hc. cbn.
  unfold slice0. cbn. now rewrite firstn_nil.
Qed.

(** X18. The query function never fails, and with a count as the configured
    maximum it never returns more entries than that. *)
Theorem query_fn_bounded {S} q (net : Net.Network) (st : S) :
  0 <= maxResults opts ->
  exists l, result_of (queryFn opts q net st) = Ok l
            /\ Z.of_nat (List.length l) <= maxResults opts.
Proof.
  intros Hmax. unfold queryFn.
  destruct (negb (Text.truthy q) || (Text.len q <? minSearchLength opts)).
  - exists []. split; [reflexivity | assumption].
  - unfold try_catch, bind, ret.
    destruct (getSuggestions q net st) as [[[l|e] st'] log]; cbn -[slice0].
    + eexists. split; [reflexivity |]. now apply slice0_length.
    + exists []. split; [reflexivity | assumption].
Qed.

End Extras.
End HookExtras.

(** ** The component on the hook: selection, manual submit, form schema *)

Module PanelFacts.
Import EffOps GeocodingService UseLocationSearch SearchPanel.
Import RegexFacts PatternFacts TrimFacts ValidationFacts.
Import Vocabulary MoreVocabulary.

(** What the form schema accepts. *)
Lemma schema_accepts_inv s :
  schema_accepts s = true ->
  2 <= Text.len s <= 100
  /\ Forall (fun c => location_char c = true) (list_ascii_of_string s).
Proof.
  unfold schema_accepts, manualLocationSchema.
  destruct (Text.len s <? 2) eqn:H2; [discriminate |].
  destruct (Text.len s >? 100) eqn:H100; [discriminate |].
  destruct (Regex.accepts location_pattern (list_ascii_of_string s)) eqn:Hr;
    [| discriminate].
  intros _. apply Z.ltb_ge in H2. rewrite Z.gtb_ltb in H100.
  apply Z.ltb_ge in H100. split; [lia |].
  apply accepts_lang in Hr. unfold location_pattern in Hr.
  apply lang_plus_class in Hr. tauto.
Qed.

(** No character of the form's class equals [<], [:] or [=] up to case. *)
Lemma class_excludes x c :
  c = "<"%char \/ c = ":"%char \/ c = "="%char ->
  same_letter x c -> location_char x = false.
Proof.
  unfold same_letter.
  intros [-> | [-> | ->]];
    destruct x as [[] [] [] [] [] [] [] []]; vm_compute; congruence.
Qed.

Lemma same_letter_in m l c :
  Forall2 same_letter m l -> In c l -> exists x, In x m /\ same_letter x c.
Proof.
  induction 1 as [|x y m l Hxy _ IH]; intros Hc; [destruct Hc |].
  destruct Hc as [-> | Hc].
  - exists x. split; [now left | assumption].
  - destruct (IH Hc) as (z & Hz & Hs). exists z. split; [now right | assumption].
Qed.

(** A text of the form's class contains nothing that equals a literal with
    [<], [:] or [=] in it. *)
Lemma class_excludes_literal s lit c :
  Forall (fun c => location_char c = true) (list_ascii_of_string s) ->
  c = "<"%char \/ c = ":"%char \/ c = "="%char ->
  In c (list_ascii_of_string lit) ->
  ~ contains_i lit s.
Proof.
  intros Hs Hc Hin (pre & m & post & E & Hm).
  destruct (@same_letter_in _ _ c Hm Hin) as (x & Hx & Hl).
  rewrite E in Hs. apply Forall_app in Hs. destruct Hs as [_ Hs].
  apply Forall_app in Hs. destruct Hs as [Hs _].
  rewrite Forall_forall in Hs. specialize (Hs x Hx).
  rewrite (@class_excludes x c Hc Hl) in Hs. discriminate.
Qed.

Lemma class_excludes_dangerous s :
  Forall (fun c => location_char c = true) (list_ascii_of_string s) ->
  ~ dangerous s.
Proof.
  intros Hs [Hd|[Hd|[Hd|Hd]]].
  - revert Hd. apply (@class_excludes_literal s "<script" "<"%char);
      [assumption | now left | now left].
  - revert Hd. apply (@class_excludes_literal s "javascript:" ":"%char);
      [assumption | right; now left | simpl; tauto].
  - destruct Hd as (pre & o & w & sp & post & E & _).
    rewrite E in Hs. apply Forall_app in Hs. destruct Hs as [_ Hs].
    apply Forall_app in Hs. destruct Hs as [Hs _].
    apply Forall_app in Hs. destruct Hs as [_ Hs].
    apply Forall_app in Hs. destruct Hs as [_ Hs].
    apply Forall_app in Hs. destruct Hs as [_ Hs].
    inversion Hs as [|? ? Heq _]; subst. discriminate.
  - revert Hd. apply (@class_excludes_literal s "data:" ":"%char);
      [assumption | right; now left | simpl; tauto].
Qed.

Section Facts.
Context `{JsNumbers}.

Lemma submit_run location (net : Net.Network) (p : Panel) :
  result_of (panel_entry location net (setIsManualSearching true p)) = Ok tt ->
  onManualSubmit location net p
  = (Ok tt,
     setIsManualSearching false
       (state_of (panel_entry location net (setIsManualSearching true p))),
     requests_of (panel_entry location net (setIsManualSearching true p))).
Proof.
  unfold onManualSubmit, bind, modify. fold (panel_entry location).
  destruct (panel_entry location net (setIsManualSearching true p))
    as [[r p'] log].
  cbn. intros ->. now rewrite app_nil_r.
Qed.

End Facts.
End PanelFacts.

Module PanelExtras.
Import EffOps GeocodingService Timers UseLocationSearch SearchPanel.
Import HookFacts HookMoreFacts ManualSearchFacts ManualEntryFacts PanelFacts.
Import TrimFacts ValidationFacts Vocabulary MoreVocabulary.

(** X19. A text the form schema accepts contains none of the dangerous
    patterns and is at most 100 long after trimming, so
    [validateLocationInput] declares it valid exactly when it keeps at
    least two characters after trimming. *)
Theorem schema_accepted_is_clean s :
  schema_accepts s = true ->
  ~ dangerous s
  /\ (isValid (validateLocationInput (Some s)) = true
      <-> 2 <= Text.len (Text.trim s)).
Proof.
  intros Hs. destruct (schema_accepts_inv s Hs) as (Hlen & Hclass).
  pose proof (class_excludes_dangerous Hclass) as Hnd.
  pose proof (trim_length s) as Htrim.
  pose proof (validate_decides s) as Hdec.
  split; [assumption |].
  destruct (isValid (validateLocationInput (Some s))).
  - split; [intros _ | reflexivity].
    destruct (Z.lt_ge_cases (Text.len (Text.trim s)) 2) as [Hlt|]; [| assumption].
    assert (Hf : true = false) by (apply Hdec; now left). discriminate.
  - split; [discriminate |]. intros Hge.
    destruct (proj1 Hdec eq_refl) as [Hc|[Hc|Hc]]; [lia | lia | contradiction].
Qed.

Section Extras.
Context `{JsNumbers}.

(** X20. Selecting a place hands it to [onLocationSelect], empties the
    form field and shows one toast; it leaves the hook with an empty query
    text, an empty debounced query and no pending timer, so that however
    long one waits afterwards no debounced commit follows. *)
Theorem selection_quiets_search es dts location p :
  hook p = run options es init ->
  let p' := handleLocationSelect location p in
  selected p' = (selected p ++ [location])%list
  /\ formLocation p' = ""
  /\ shown p'
     = (shown p ++ [(ToastSuccess,
                     ("Weather updated for "
                      ++ LocationSearch.name location)%string)])%list
  /\ searchQuery (hook p') = ""
  /\ debouncedQuery (hook p') = ""
  /\ pending (loop (hook p')) = []
  /\ fired (run options (waits dts) (hook p')) = fired (hook p).
Proof.
  intros Hh p'. subst p'. unfold handleLocationSelect. cbn.
  assert (Hinv : one_timer (handleSetSearchQuery options "" (hook p))).
  { rewrite Hh. change (one_timer (step options (run options es init) (Typed ""))).
    apply one_timer_step, one_timer_run, one_timer_init. }
  destruct (clear_quiet Hinv) as (Hq & Hd & _ & Hp & Hf).
  destruct (typed_always options "" (hook p)) as (_ & _ & Hf0 & _).
  destruct (waits_idle options dts _ Hp) as (_ & Hw & _).
  cbn zeta in Hw. repeat split; try assumption.
  exact (eq_trans Hw (eq_trans Hf Hf0)).
Qed.

(** X21. A manual submit sets the flag [isManualSearching] and only a
    completed entry lets it switch the flag off again. When the input
    fails validation or the search fails, the submit fails with the
    [ReferenceError] of the entry and the flag stays on; the hook, the
    form field and the selection are as they were, and no error toast is
    shown: at most the info toast of the search. *)
Theorem manual_submit_failure_keeps_flag location (net : Net.Network)
  (p : Panel) :
  isValid (validateLocationInput (Some location)) = false
  \/ (exists e, result_of (geocodeLocation location net p) = Throw e) ->
  let out := onManualSubmit location net p in
  result_of out = Throw (ReferenceError "GeocodingError")
  /\ isManualSearching (state_of out) = true
  /\ hook (state_of out) = hook p
  /\ formLocation (state_of out) = formLocation p
  /\ selected (state_of out) = selected p
  /\ shown (state_of out)
     = if isValid (validateLocationInput (Some location))
       then (shown p ++ [(ToastInfo, "Searching for location...")])%list
       else shown p.
Proof.
  intros Hfail out. subst out.
  unfold onManualSubmit, bind, modify. fold (panel_entry location).
  unfold panel_entry.
  destruct (isValid (validateLocationInput (Some location))) eqn:Hv.
  - destruct Hfail as [Hf | (e & He)]; [discriminate |].
    rewrite (ServiceFacts.geocodeLocation_state location net p) in He.
    cbn in He.
    rewrite (entry_valid _ _ _ location net _ Hv), He. cbn.
    now repeat split.
  - rewrite (entry_invalid _ _ _ location net _ Hv). cbn.
    now repeat split.
Qed.

(** X23. When the search of a manual submit succeeds, its first result is
    converted and selected: the selection grows by that place, whose
    fields are those of the result, the form field and the query text are
    emptied, and the flag is off. *)
Theorem manual_submit_found location (net : Net.Network) (p : Panel) places :
  isValid (validateLocationInput (Some location)) = true ->
  result_of (geocodeLocation location net p) = Ok places ->
  let p' := state_of (onManualSubmit location net p) in
  exists first rest,
    places = first :: rest
    /\ selected p' = (selected p ++ [convertToLocation first])%list
    /\ LocationSearch.id (convertToLocation first) = id first
    /\ formLocation p' = ""
    /\ searchQuery (hook p') = ""
    /\ debouncedQuery (hook p') = ""
    /\ isManualSearching p' = false.
Proof.
  intros Hv Hr p'. subst p'.
  rewrite (ServiceFacts.geocodeLocation_state location net p) in Hr.
  cbn in Hr. destruct (found_has_first location net Hr) as (first & rest & ->).
  exists first, rest. split; [reflexivity |].
  assert (Hdone : result_of (panel_entry location net
                               (setIsManualSearching true p)) = Ok tt).
  { unfold panel_entry.
    now rewrite (entry_valid _ _ _ location net _ Hv), Hr. }
  rewrite (submit_run location net p Hdone).
  unfold panel_entry.
  rewrite (entry_valid _ _ _ location net _ Hv), Hr.
  unfold handleLocationSelect, clearResults. cbn.
  destruct (debounceRef _); cbn; now repeat split.
Qed.

End Extras.
End PanelExtras.

(** ** More on the saved locations *)

Module ToggleMoreFacts.
Import LocationSearch ToggleFacts.

Section Facts.
Context `{JsNumbers}.

Lemma same_id_sym (a b : Location) : same_id a b = same_id b a.
Proof. unfold same_id. apply String.eqb_sym. Qed.

(** Two places with the identifier of a third have the same status. *)
Lemma same_id_trans_false (a b c : Location) :
  same_id a b = true -> same_id c b = false -> same_id a c = false.
Proof.
  unfold same_id. intros Hab Hcb. apply String.eqb_eq in Hab.
  rewrite Hab. rewrite String.eqb_sym. exact Hcb.
Qed.

(** Filtering one identifier out does not change whether another is there. *)
Lemma filter_keeps_others (location other : Location) l :
  same_id other location = false ->
  existsb (fun saved => same_id saved other)
    (filter (fun saved => negb (same_id saved location)) l)
  = existsb (fun saved => same_id saved other) l.
Proof.
  intros Hne. induction l as [|a l IH]; simpl; [reflexivity |].
  destruct (same_id a location) eqn:Ea; simpl.
  - rewrite (same_id_trans_false _ _ _ Ea Hne). exact IH.
  - now rewrite IH.
Qed.

Lemma saved_in_ids (location : Location) l :
  existsb (fun saved => same_id saved location) l = false ->
  ~ In (id location) (map id l).
Proof.
  intros E Hin. apply in_map_iff in Hin. destruct Hin as (a & Ha & Hin).
  assert (Ht : existsb (fun saved => same_id saved location) l = true).
  { apply existsb_exists. exists a. split; [assumption |].
    unfold same_id. rewrite Ha. apply String.eqb_refl. }
  congruence.
Qed.

Lemma filter_ids_distinct (f : Location -> bool) l :
  NoDup (map id l) -> NoDup (map id (filter f l)).
Proof.
  induction l as [|a l IH]; simpl; [constructor |].
  intros Hnd. inversion Hnd as [|? ? Hnotin Hrest]; subst.
  destruct (f a); simpl; [| now apply IH].
  constructor; [| now apply IH].
  intros Hin. apply Hnotin. apply in_map_iff in Hin.
  destruct Hin as (b & Hb & Hin). apply filter_In in Hin.
  apply in_map_iff. exists b. tauto.
Qed.

Lemma toggle_ids_distinct location s :
  NoDup (map id (savedLocations s)) ->
  NoDup (map id (savedLocations (toggleSavedLocation location s))).
Proof.
  intros Hnd. destruct (isLocationSaved s location) eqn:E.
  - rewrite toggle_saved by assumption. now apply filter_ids_distinct.
  - rewrite toggle_unsaved by assumption. rewrite map_app. simpl.
    apply NoDup_app; [assumption | repeat constructor; intros [] |].
    intros a Ha [<- | []]. revert Ha. now apply saved_in_ids.
Qed.

End Facts.
End ToggleMoreFacts.

Module ToggleExtras.
Import LocationSearch ToggleFacts ToggleMoreFacts.

Section Extras.
Context `{JsNumbers}.

(** X24. One toggle flips the status of the place: a place that was not
    saved is reported saved afterwards, and a saved one is not. *)
Theorem toggle_flips_saved location s :
  isLocationSaved (toggleSavedLocation location s) location
  = negb (isLocationSaved s location).
Proof.
  destruct (isLocationSaved s location) eqn:E; unfold isLocationSaved.
  - rewrite toggle_saved by assumption. apply filter_removes.
  - rewrite toggle_unsaved by assumption.
    rewrite existsb_app. simpl. rewrite same_id_refl. apply orb_true_r.
Qed.

(** X25. A toggle of one place leaves the status of every place with
    another identifier as it was. *)
Theorem toggle_keeps_others location other s :
  same_id other location = false ->
  isLocationSaved (toggleSavedLocation location s) other
  = isLocationSaved s other.
Proof.
  intros Hne. destruct (isLocationSaved s location) eqn:E;
    unfold isLocationSaved.
  - rewrite toggle_saved by assumption. now apply filter_keeps_others.
  - rewrite toggle_unsaved by assumption.
    rewrite existsb_app. simpl. rewrite same_id_sym, Hne.
    now rewrite !orb_false_r.
Qed.

(** X26. Toggles keep the saved list free of repeated identifiers: if no
    identifier occurs twice, none does after any sequence of toggles. In
    particular every list built from the empty one is a set. *)
Theorem saved_ids_stay_distinct locations s :
  NoDup (map id (savedLocations s)) ->
  NoDup (map id (savedLocations
                   (fold_left (fun acc location =>
                                 toggleSavedLocation location acc)
                      locations s))).
Proof.
  revert s. induction locations as [|location locations IH]; intros s Hnd;
    [assumption |].
  simpl. apply IH. now apply toggle_ids_distinct.
Qed.

End Extras.
End ToggleExtras.

(** ** The component with its own search *)

Module SearchBoxExtras.
Import EffOps SearchBox.

Section Extras.
Context `{JsNumbers}.

(** X27. The search of this version never throws. A query shorter than 3
    clears the results without a request. A longer query makes exactly one
    request and always ends with [isSearching] off, whatever comes back. *)
Theorem search_box_settles query (net : Net.Network) (b : Box) :
  let out := searchLocations query net b in
  result_of out = Ok tt
  /\ (Text.len query < 3 ->
      requests_of out = [] /\ state_of out = setSearchResults [] b)
  /\ (3 <= Text.len query ->
      requests_of out = [search_url query]
      /\ isSearching (state_of out) = false
      /\ searchQuery (state_of out) = searchQuery b).
Proof.
  intros out. subst out. unfold searchLocations.
  destruct (Text.len query <? 3) eqn:Hl.
  - apply Z.ltb_lt in Hl. cbn. split; [reflexivity |].
    split; [now split | lia].
  - apply Z.ltb_ge in Hl.
    unfold bind, finally, try_catch, fetch, json, modify, throw, ret.
    destruct (net (search_url query)) as [|r]; cbn.
    + split; [reflexivity |]. split; [lia | now repeat split].
    + destruct (Net.ok r); cbn.
      * destruct (Net.body r) as [| |rs]; cbn;
          (split; [reflexivity |]); (split; [lia | now repeat split]).
      * split; [reflexivity |]. split; [lia | now repeat split].
Qed.

(** X28. After a search with a query of 3 or more, the results are the
    records of the response, mapped in order, when the response is a
    success with an array as body; in every other case (a rejected request,
    an error status, a body that cannot be parsed or is no array) the
    results are empty. *)
Theorem search_box_results query (net : Net.Network) (b : Box) :
  3 <= Text.len query ->
  searchResults (state_of (searchLocations query net b))
  = match net (search_url query) with
    | Net.FetchResponse r =>
        if Net.ok r then
          match Net.body r with
          | Net.BodyArray rs => map to_hit rs
          | _ => []
          end
        else []
    | Net.FetchRejected => []
    end.
Proof.
  intros Hl. apply Z.ltb_ge in Hl. unfold searchLocations. rewrite Hl.
  unfold bind, finally, try_catch, fetch, json, modify, throw, ret.
  destruct (net (search_url query)) as [|r]; cbn; [reflexivity |].
  destruct (Net.ok r); cbn; [| reflexivity].
  destruct (Net.body r) as [| |rs]; reflexivity.
Qed.

End Extras.
End SearchBoxExtras.

(** ** The unit toggle *)

Module UnitToggleFacts.
Import UnitToggle MoreVocabulary.


Lemma effect_settled t : settled (effect t).
Proof. split; [reflexivity |]. now exists (reported t). Qed.

Lemma mount_settled saved t : mount saved = Some t -> settled t.
Proof.
  unfold mount. destruct (initial saved); [| discriminate].
  intros [= <-]. apply effect_settled.
Qed.

Lemma toggle_settled checked t : settled t -> settled (handleToggle checked t).
Proof.
  intros Ht. unfold handleToggle.
  destruct (Bool.eqb checked (isCelsius t)); [assumption |].
  apply effect_settled.
Qed.

Lemma toggles_settled cs : forall t,
  settled t -> settled (fold_left (fun acc c => handleToggle c acc) cs t).
Proof.
  induction cs as [|c cs IH]; intros t Ht; [assumption |].
  simpl. apply IH. now apply toggle_settled.
Qed.

End UnitToggleFacts.

Module UnitToggleExtras.
Import UnitToggle UnitToggleFacts.


(** X30. The parent always knows the unit: after mounting and any sequence
    of toggles, the last value handed to [onUnitChange] is the current
    unit, and the storage holds that unit. *)
Theorem unit_is_reported saved t cs :
  mount saved = Some t ->
  let t' := fold_left (fun acc c => handleToggle c acc) cs t in
  storage t' = Some (stringify (isCelsius t'))
  /\ exists before, reported t' = (before ++ [isCelsius t'])%list.
Proof.
  intros Hm t'. exact (toggles_settled cs (mount_settled saved Hm)).
Qed.

End UnitToggleExtras.

(** ** The further statements run on sample inputs *)

Module MoreWitnesses.
Import EffOps GeocodingService Timers UseLocationSearch Vocabulary MoreVocabulary.
Import IntegerNumbers Samples MoreSamples.
Import ServiceExtras ManualEntryExtras HookExtras PanelExtras ToggleExtras.
Import SearchBoxExtras UnitToggleExtras.

Lemma search_success_nonempty_witness :
  result_of (search "Paris" (answers [paris; monaco]))
  = Ok (map to_result [paris; monaco])
  /\ exists first rest, map to_result [paris; monaco] = first :: rest.
Proof.
  split; [reflexivity |].
  exact (@search_success_nonempty integers unit "Paris"
           (answers [paris; monaco]) tt _ eq_refl).
Defined.

Lemma manual_entry_invalid_witness :
  isValid (validateLocationInput (Some "a")) = false
  /\ entry "a" (answers [paris])
     = (Throw (ReferenceError "GeocodingError"), ([], []), []).
Proof.
  split; [reflexivity |].
  exact (@manual_entry_invalid integers Log log_toast log_success
           (Some log_error) "a" (answers [paris]) ([], []) eq_refl).
Defined.

Lemma manual_entry_found_witness :
  isValid (validateLocationInput (Some "Paris")) = true
  /\ exists location rest address,
       map to_result [paris; monaco] = location :: rest
       /\ formatted_address location = Some address
       /\ state_of (entry "Paris" (answers [paris; monaco]))
          = log_success location
              (log_toast ToastSuccess ("Found: " ++ address)
                 (log_toast ToastInfo "Searching for location..." ([], []))).
Proof.
  split; [reflexivity |].
  exact (@manual_entry_found integers Log log_toast log_success
           (Some log_error) "Paris" (answers [paris; monaco]) ([], [])
           (map to_result [paris; monaco]) eq_refl eq_refl).
Defined.

Lemma manual_entry_failed_witness :
  isValid (validateLocationInput (Some "Paris")) = true
  /\ result_of (search "Paris" offline)
     = Throw (ReferenceError "GeocodingError")
  /\ entry "Paris" offline
     = (Throw (ReferenceError "GeocodingError"),
        ([(ToastInfo, "Searching for location...")], []),
        [url_of "Paris"]).
Proof.
  split; [reflexivity |]. split; [reflexivity |].
  exact (@manual_entry_failed integers Log log_toast log_success
           (Some log_error) "Paris" offline ([], [])
           (ReferenceError "GeocodingError") eq_refl eq_refl).
Defined.

Lemma no_commit_before_delay_witness :
  minSearchLength defaults <= Text.len "Paris"
  /\ 0 <= 299 < timer_delay (debounceMs defaults)
  /\ fired (run defaults [Typed "Paris"; Elapsed 299] init) = []
  /\ debouncedQuery (run defaults [Typed "Paris"; Elapsed 299] init) = "".
Proof.
  assert (H1 : minSearchLength defaults <= Text.len "Paris") by discriminate.
  assert (H2 : 0 <= 299 < timer_delay (debounceMs defaults))
    by (split; [discriminate | reflexivity]).
  split; [exact H1 |]. split; [exact H2 |].
  pose proof (@no_commit_before_delay defaults [] "Paris" 299 H1 H2) as Hx.
  split; [exact (proj1 Hx) | exact (proj1 (proj2 Hx))].
Defined.

Lemma query_fn_short_witness :
  Text.len "ab" < 3
  /\ minSearchLength eager <= Text.len "ab"
  /\ @queryFn eager integers unit "ab" (answers [paris]) tt = (Ok [], tt, []).
Proof.
  split; [reflexivity |]. split; [discriminate |].
  exact (@query_fn_short eager integers unit "ab" (answers [paris]) tt
           (or_intror (or_intror eq_refl))).
Defined.

Lemma query_fn_bounded_witness :
  0 <= maxResults defaults
  /\ exists l,
       result_of (@queryFn defaults integers unit "Paris"
                    (answers [paris; monaco]) tt) = Ok l
       /\ Z.of_nat (List.length l) <= maxResults defaults.
Proof.
  assert (Hmax : 0 <= maxResults defaults) by discriminate.
  split; [exact Hmax |].
  exact (@query_fn_bounded defaults integers unit "Paris"
           (answers [paris; monaco]) tt Hmax).
Defined.

Lemma selection_quiets_search_witness :
  let p := typing_panel in
  let p' := SearchPanel.handleLocationSelect paris_location p in
  SearchPanel.hook p = run SearchPanel.options [Typed "Par"] init
  /\ List.length (pending (loop (SearchPanel.hook p))) = 1%nat
  /\ SearchPanel.selected p' = [paris_location]
  /\ pending (loop (SearchPanel.hook p')) = []
  /\ fired (run SearchPanel.options (waits [1000]) (SearchPanel.hook p')) = [].
Proof.
  intros p p'.
  assert (Hp : SearchPanel.hook p = run SearchPanel.options [Typed "Par"] init)
    by reflexivity.
  pose proof (@selection_quiets_search integers [Typed "Par"] [1000]
                paris_location p Hp) as Hx.
  split; [exact Hp |]. split; [reflexivity |].
  split; [exact (proj1 Hx) |].
  split; [exact (proj1 (proj2 (proj2 (proj2 (proj2 (proj2 Hx)))))) |].
  exact (proj2 (proj2 (proj2 (proj2 (proj2 (proj2 Hx)))))).
Defined.

Lemma manual_submit_failure_keeps_flag_witness :
  SearchPanel.schema_accepts "Paris" = true
  /\ result_of (search "Paris" offline)
     = Throw (ReferenceError "GeocodingError")
  /\ result_of (submit "Paris" offline)
     = Throw (ReferenceError "GeocodingError")
  /\ SearchPanel.isManualSearching (state_of (submit "Paris" offline)) = true
  /\ SearchPanel.shown (state_of (submit "Paris" offline))
     = [(ToastInfo, "Searching for location...")].
Proof.
  split; [reflexivity |]. split; [reflexivity |].
  pose proof (@manual_submit_failure_keeps_flag integers "Paris" offline
                SearchPanel.start
                (or_intror (ex_intro _ (ReferenceError "GeocodingError")
                              eq_refl))) as Hx.
  split; [exact (proj1 Hx) |].
  split; [exact (proj1 (proj2 Hx)) |].
  exact (proj2 (proj2 (proj2 (proj2 (proj2 Hx))))).
Defined.

Lemma manual_submit_found_witness :
  isValid (validateLocationInput (Some "Paris")) = true
  /\ exists first rest,
       map to_result [paris; monaco] = first :: rest
       /\ SearchPanel.selected (state_of (submit "Paris" (answers [paris; monaco])))
          = [SearchPanel.convertToLocation first].
Proof.
  split; [reflexivity |].
  destruct (@manual_submit_found integers "Paris" (answers [paris; monaco])
              SearchPanel.start (map to_result [paris; monaco])
              eq_refl eq_refl)
    as (first & rest & E & Hs & _).
  exists first, rest. split; [exact E | exact Hs].
Defined.

Lemma schema_accepted_is_clean_witness :
  SearchPanel.schema_accepts "New York" = true
  /\ ~ dangerous "New York"
  /\ (isValid (validateLocationInput (Some "New York")) = true
      <-> 2 <= Text.len (Text.trim "New York")).
Proof.
  split; [reflexivity |].
  exact (@schema_accepted_is_clean "New York" eq_refl).
Defined.

Lemma toggle_keeps_others_witness :
  LocationSearch.same_id monaco_location paris_location = false
  /\ LocationSearch.isLocationSaved
       (LocationSearch.toggleSavedLocation paris_location saved_both)
       monaco_location
     = LocationSearch.isLocationSaved saved_both monaco_location.
Proof.
  split; [reflexivity |].
  exact (@toggle_keeps_others integers paris_location monaco_location
           saved_both eq_refl).
Defined.

Lemma saved_ids_stay_distinct_witness :
  NoDup (map LocationSearch.id (LocationSearch.savedLocations saved_none))
  /\ NoDup (map LocationSearch.id
              (LocationSearch.savedLocations
                 (fold_left (fun acc location =>
                               LocationSearch.toggleSavedLocation location acc)
                    [paris_location; monaco_location; paris_location]
                    saved_none))).
Proof.
  assert (Hnd : NoDup (map LocationSearch.id
                         (LocationSearch.savedLocations saved_none)))
    by constructor.
  split; [exact Hnd |].
  exact (@saved_ids_stay_distinct integers
           [paris_location; monaco_location; paris_location] saved_none Hnd).
Defined.

Lemma search_box_settles_witness :
  (Text.len "Pa" < 3
   /\ requests_of (box_search "Pa" offline) = []
   /\ state_of (box_search "Pa" offline)
      = SearchBox.setSearchResults [] SearchBox.start)
  /\ (3 <= Text.len "Paris"
      /\ requests_of (box_search "Paris" offline) = [SearchBox.search_url "Paris"]
      /\ SearchBox.isSearching (state_of (box_search "Paris" offline)) = false).
Proof.
  assert (H2 : Text.len "Pa" < 3) by reflexivity.
  assert (H5 : 3 <= Text.len "Paris") by discriminate.
  split.
  - split; [exact H2 |].
    exact (proj1 (proj2 (@search_box_settles integers "Pa" offline
                           SearchBox.start)) H2).
  - split; [exact H5 |].
    pose proof (proj2 (proj2 (@search_box_settles integers "Paris" offline
                                SearchBox.start)) H5) as Hx.
    split; [exact (proj1 Hx) | exact (proj1 (proj2 Hx))].
Defined.

Lemma search_box_results_witness :
  3 <= Text.len "Paris"
  /\ SearchBox.searchResults (state_of (box_search "Paris" (answers [paris])))
     = map SearchBox.to_hit [paris].
Proof.
  assert (H5 : 3 <= Text.len "Paris") by discriminate.
  split; [exact H5 |].
  exact (@search_box_results integers "Paris" (answers [paris])
           SearchBox.start H5).
Defined.


Lemma unit_is_reported_witness :
  UnitToggle.mount (Some "false") = Some fahrenheit
  /\ UnitToggle.storage
       (fold_left (fun acc c => UnitToggle.handleToggle c acc)
          [true; true; false] fahrenheit)
     = Some "false".
Proof.
  split; [reflexivity |].
  exact (proj1 (@unit_is_reported (Some "false") fahrenheit
                  [true; true; false] eq_refl)).
Defined.

End MoreWitnesses.
